(** * body-gravity-simulation: the leapfrog N-body engine

    A shallow embedding of [body-gravity-simulation.py] (classes [Point],
    [Body] and [System]) and the properties of its specification.

    Numbers.  Python numbers are duck-typed: the engine only adds,
    subtracts, multiplies, divides, negates, cubes, takes [np.sqrt] and
    compares with [<=] and [>].  The embedding is therefore written once
    over an interface [PyNum] of exactly these operations.  Everything that
    concerns control flow and data flow is proved for every instance of the
    interface; the statements that need arithmetic laws are proved at the
    instance of the real numbers, the number domain that the specification
    declares for every quantity.

    Objects.  A [Body] owns its [Point]s and its trajectory list, and the
    list [bodies] of a [System] holds distinct bodies: this is how
    [Body.__init__] and [main] build them, and the engine never shares a
    [Point] itself ([get_acc_for_body] allocates a new one and
    [add_current_pos_to_list] copies the three coordinates).  In-place
    mutation inside a [for body in self.bodies] loop is kept sequential:
    the loop body runs on the list as the earlier iterations left it. *)

From Stdlib Require Import Ascii String List ZArith Lia Bool.
From Stdlib Require Import Permutation.
From Stdlib Require Import Reals Lra R_Ifp.
Import ListNotations.

Set Implicit Arguments.

(** ** The numeric interface *)

Declare Scope py_scope.
Delimit Scope py_scope with py.

Class PyNum (num : Type) : Type := {
  (** a decimal literal [m e k], read as [m * 10^k] *)
  lit : Z -> Z -> num;
  padd : num -> num -> num;
  psub : num -> num -> num;
  pmul : num -> num -> num;
  pdiv : num -> num -> num;
  pneg : num -> num;
  (** [np.sqrt] *)
  psqrt : num -> num;
  (** [a ** k] for a literal exponent [k] *)
  ppow : num -> nat -> num;
  (** [a <= b] *)
  pleb : num -> num -> bool;
  (** [a > b] *)
  pgtb : num -> num -> bool
}.

Infix "+" := padd : py_scope.
Infix "-" := psub : py_scope.
Infix "*" := pmul : py_scope.
Infix "/" := pdiv : py_scope.
Notation "- a" := (pneg a) : py_scope.
Infix "**" := ppow (at level 30, right associativity) : py_scope.
Infix "<=?" := pleb : py_scope.
Infix ">?" := pgtb : py_scope.

(** ** The program *)

Section Engine.

Context {num : Type} {arith : PyNum num}.

Local Open Scope py_scope.

(** [G = 6.67259e-11] *)
Definition G : num := lit 667259 (-16).

(** The literals [0] and [2] of the source. *)
Definition zero : num := lit 0 0.
Definition two : num := lit 2 0.

(** *** class Point *)

Record Point : Type := mkPoint { x : num; y : num; z : num }.

(** [Point(x=0, y=0, z=0)] with every argument left at its default. *)
Definition Point_init : Point := mkPoint zero zero zero.

Definition get_point_as_list (p : Point) : list num := [x p; y p; z p].

(** *** class Body *)

Record Body : Type := mkBody {
  name : string;
  mass : num;
  position : Point;
  velocity : Point;
  acceleration : Point;
  position_list : list (list num)
}.

Definition Body_init (name : string) (mass : num) (position velocity : Point)
  : Body :=
  mkBody name mass position velocity Point_init [].

Definition set_position (b : Body) (p : Point) : Body :=
  mkBody (name b) (mass b) p (velocity b) (acceleration b) (position_list b).

Definition set_velocity (b : Body) (v : Point) : Body :=
  mkBody (name b) (mass b) (position b) v (acceleration b) (position_list b).

Definition set_acceleration (b : Body) (a : Point) : Body :=
  mkBody (name b) (mass b) (position b) (velocity b) a (position_list b).

(** [self.position_list.append([pos.x, pos.y, pos.z])] *)
Definition add_current_pos_to_list (b : Body) : Body :=
  let pos := position b in
  mkBody (name b) (mass b) (position b) (velocity b) (acceleration b)
         (position_list b ++ [[x pos; y pos; z pos]]).

(** *** class System *)

Record System : Type := mkSystem {
  bodies : list Body;
  start : num;
  stop : num;
  dt : num;
  t : num
}.

Definition System_init (start stop dt : num) : System :=
  mkSystem [] start stop dt start.

Definition set_bodies (self : System) (bs : list Body) : System :=
  mkSystem bs (start self) (stop self) (dt self) (t self).

Definition set_t (self : System) (t' : num) : System :=
  mkSystem (bodies self) (start self) (stop self) (dt self) t'.

(** The values a caller can hand to [add_body]. *)
Inductive PyObject : Type :=
| ObjBody (b : Body)
| ObjPoint (p : Point)
| ObjNum (n : num)
| ObjStr (s : string)
| ObjNone.

(** What a call leaves behind: the receiver, the lines printed, the value
    returned. *)
Record Call (A : Type) : Type := mkCall {
  self_after : System;
  printed : list string;
  returned : A
}.

Definition add_body (self : System) (body : PyObject) : Call Z :=
  match body with
  | ObjBody b => mkCall (set_bodies self (bodies self ++ [b])) [] 0%Z
  | _ => mkCall self ["Entry must be a body"%string] 1%Z
  end.

Definition get_bodies (self : System) : list Body := bodies self.

(** [for body in self.bodies: <mutate body>].  [done] holds the bodies the
    loop has already mutated, [todo] those still to come; the loop body sees
    the receiver with the list in its current state. *)
Fixpoint for_body_in (step : System -> Body -> Body) (self : System)
    (done todo : list Body) : list Body :=
  match todo with
  | [] => done
  | body :: rest =>
      let now := set_bodies self (done ++ body :: rest) in
      for_body_in step self (done ++ [step now body]) rest
  end.

Definition for_each_body (step : System -> Body -> Body) (self : System)
  : System :=
  set_bodies self (for_body_in step self [] (bodies self)).

(** One turn of the loop of [get_acc_for_body]. *)
Definition acc_step (body : Body) (acc : Point) (other_body : Body) : Point :=
  if negb (String.eqb (name body) (name other_body)) then
    let dx := x (position body) - x (position other_body) in
    let dy := y (position body) - y (position other_body) in
    let dz := z (position body) - z (position other_body) in
    let r := psqrt (dx * dx + dy * dy + dz * dz) in
    if r ** 3 >? lit 10 (-10) then
      mkPoint (x acc + (- (G * mass other_body * dx)) / (r ** 3))
              (y acc + (- (G * mass other_body * dy)) / (r ** 3))
              (z acc + (- (G * mass other_body * dz)) / (r ** 3))
    else acc
  else acc.

Fixpoint acc_loop (body : Body) (acc : Point) (others : list Body) : Point :=
  match others with
  | [] => acc
  | other_body :: rest => acc_loop body (acc_step body acc other_body) rest
  end.

Definition get_acc_for_body (self : System) (body : Body) : Point :=
  acc_loop body Point_init (bodies self).

(** [body.acceleration = self.get_acc_for_body(body)] *)
Definition assign_acc (now : System) (body : Body) : Body :=
  set_acceleration body (get_acc_for_body now body).

Definition calculate_acc_for_all_bodies (self : System) : System :=
  for_each_body assign_acc self.

Definition update_vel_for_all_bodies (self : System) (dt : num) : System :=
  for_each_body
    (fun _ body =>
       set_velocity body
         (mkPoint (x (velocity body) + x (acceleration body) * dt)
                  (y (velocity body) + y (acceleration body) * dt)
                  (z (velocity body) + z (acceleration body) * dt))) self.

Definition update_pos_for_all_bodies (self : System) : System :=
  for_each_body
    (fun now body =>
       set_position body
         (mkPoint (x (position body) + x (velocity body) * dt now)
                  (y (position body) + y (velocity body) * dt now)
                  (z (position body) + z (velocity body) * dt now))) self.

Definition add_pos_to_list_for_all_bodies (self : System) : System :=
  for_each_body (fun _ body => add_current_pos_to_list body) self.

(** The three calls of [start_sim] before its loop. *)
Definition sim_prologue (self : System) : System :=
  let s1 := calculate_acc_for_all_bodies self in
  let s2 := update_vel_for_all_bodies s1 (dt s1 / two) in
  add_pos_to_list_for_all_bodies s2.

(** The body of the [while] loop of [start_sim]. *)
Definition sim_loop_body (self : System) : System :=
  let s1 := update_pos_for_all_bodies self in
  let s2 := calculate_acc_for_all_bodies s1 in
  let s3 := update_vel_for_all_bodies s2 (dt s2) in
  let s4 := add_pos_to_list_for_all_bodies s3 in
  set_t s4 (t s4 + dt s4).

(** [while self.t <= self.stop: ...], with [fuel] bounding the number of
    turns: [None] means the bound was reached with the guard still true. *)
Fixpoint sim_loop (fuel : nat) (self : System) : option System :=
  if t self <=? stop self then
    match fuel with
    | O => None
    | S fuel' => sim_loop fuel' (sim_loop_body self)
    end
  else Some self.

(** [start_sim] returns [self.bodies] and leaves the receiver mutated. *)
Definition start_sim (fuel : nat) (self : System)
  : option (list Body * System) :=
  match sim_loop fuel (sim_prologue self) with
  | Some self' => Some (bodies self', self')
  | None => None
  end.

End Engine.

Arguments Point num : clear implicits.
Arguments Body num : clear implicits.
Arguments System num : clear implicits.
Arguments PyObject num : clear implicits.

(** ** The leapfrog scheme as the specification words it

    Each phase acts on every body at once, and the accelerations of a phase
    are all taken from the one list of bodies the phase started with. *)

Section Scheme.

Context {num : Type} {arith : PyNum num}.

Local Open Scope py_scope.

(** [velocity += acceleration * h] *)
Definition kick (h : num) (b : Body num) : Body num :=
  set_velocity b
    (mkPoint (x (velocity b) + x (acceleration b) * h)
             (y (velocity b) + y (acceleration b) * h)
             (z (velocity b) + z (acceleration b) * h)).

(** [position += velocity * h] *)
Definition drift (h : num) (b : Body num) : Body num :=
  set_position b
    (mkPoint (x (position b) + x (velocity b) * h)
             (y (position b) + y (velocity b) * h)
             (z (position b) + z (velocity b) * h)).

(** The acceleration of [b] taken from the snapshot [snap]. *)
Definition accelerate (snap : System num) (b : Body num) : Body num :=
  set_acceleration b (get_acc_for_body snap b).

Definition kdk_init (s : System num) : System num :=
  let b1 := map (accelerate s) (bodies s) in
  let b2 := map (kick (dt s / two)) b1 in
  set_bodies s (map add_current_pos_to_list b2).

Definition kdk_step (s : System num) : System num :=
  let s1 := set_bodies s (map (drift (dt s)) (bodies s)) in
  let b2 := map (accelerate s1) (bodies s1) in
  let b3 := map (kick (dt s)) b2 in
  let b4 := map add_current_pos_to_list b3 in
  mkSystem b4 (start s) (stop s) (dt s) (t s + dt s).

(** The state after the prologue and [n] completed turns of the loop. *)
Definition kdk_run (n : nat) (s : System num) : System num :=
  Nat.iter n kdk_step (kdk_init s).

End Scheme.

(** ** Observing a run of the code *)

Section Observation.

Context {num : Type} {arith : PyNum num}.

Local Open Scope py_scope.

Implicit Types (self s : System num) (b body : Body num).

(** The state of the code after the prologue and [n] completed turns of
    the loop. *)
Definition sim_state (n : nat) s : System num :=
  Nat.iter n sim_loop_body (sim_prologue s).

(** The guard [self.t <= self.stop]. *)
Definition guard s : bool := t s <=? stop s.

(** The states in which the loop body of a [for body in self.bodies] runs,
    one per turn, in order. *)
Fixpoint states_seen (step : System num -> Body num -> Body num) self
    (done todo : list (Body num)) : list (System num) :=
  match todo with
  | [] => []
  | body :: rest =>
      let now := set_bodies self (done ++ body :: rest) in
      now :: states_seen step self (done ++ [step now body]) rest
  end.

(** What [get_acc_for_body] reads of a body of the list. *)
Definition source_of b : string * num * Point num :=
  (name b, mass b, position b).

(** The kinematic state of a body. *)
Definition kinematics b : Point num * Point num := (position b, velocity b).

(** What never changes in a body. *)
Definition identity_of b : string * num := (name b, mass b).

(** The bodies of another name than [b]. *)
Definition others_of b (l : list (Body num)) : list (Body num) :=
  filter (fun o => negb (String.eqb (name o) (name b))) l.

(** [main]'s way to a system: [System(...)], then one [add_body] per
    entry. *)
Definition build_system (start stop dt : num) (entries : list (PyObject num))
  : System num :=
  fold_left (fun s o => self_after (add_body s o)) entries
            (System_init start stop dt).

End Observation.

(** ** The real numbers as arithmetic *)

Definition Rleb (a b : R) : bool := if Rle_dec a b then true else false.
Definition Rgtb (a b : R) : bool := if Rgt_dec a b then true else false.

#[export] Instance RealNum : PyNum R := {|
  lit m k := (IZR m * powerRZ 10 k)%R;
  padd := Rplus;
  psub := Rminus;
  pmul := Rmult;
  pdiv := Rdiv;
  pneg := Ropp;
  psqrt := sqrt;
  ppow := pow;
  pleb := Rleb;
  pgtb := Rgtb
|}.

Section RealSpec.

Local Open Scope R_scope.

Implicit Types (s : System R) (b o : Body R).

(** *** The force law in the specification's words *)

Definition vadd (p q : Point R) : Point R :=
  mkPoint (x p + x q) (y p + y q) (z p + z q).

Definition vzero : Point R := mkPoint 0 0 0.

(** The componentwise sum of a list of vectors. *)
Definition vsum (l : list (Point R)) : Point R := fold_right vadd vzero l.

(** [d = b.position - o.position] *)
Definition separation b o : Point R :=
  mkPoint (x (position b) - x (position o))
          (y (position b) - y (position o))
          (z (position b) - z (position o)).

(** The Euclidean norm. *)
Definition norm (d : Point R) : R := sqrt (x d * x d + y d * y d + z d * z d).

(** [-(G * o.mass * d) / r^3] with [G = 6.67259e-11]. *)
Definition pull b o : Point R :=
  let d := separation b o in
  let r := norm d in
  mkPoint (- (6.67259e-11 * mass o * x d) / r ^ 3)
          (- (6.67259e-11 * mass o * y d) / r ^ 3)
          (- (6.67259e-11 * mass o * z d) / r ^ 3).

(** [o] contributes to the acceleration of [b]: another name, and
    [r^3 > 1e-9]. *)
Definition contributes b o : bool :=
  negb (String.eqb (name o) (name b))
  && Rgtb (norm (separation b o) ^ 3) 1e-9.

Definition net_acceleration (bs : list (Body R)) b : Point R :=
  vsum (map (pull b) (filter (contributes b) bs)).

(** *** The clock *)

(** How many turns the loop makes from the state [s]. *)
Definition turns s : nat :=
  if Rle_dec (t s) (stop s)
  then (Z.to_nat (Int_part ((stop s - t s) / dt s)) + 1)%nat
  else 0%nat.

(** *** Straight lines *)

(** The [k]-th point of the line from [p] with step [v * h]. *)
Definition line_sample (p v : Point R) (h : R) (k : nat) : list R :=
  [x p + INR k * (x v * h); y p + INR k * (y v * h); z p + INR k * (z v * h)].

(** The only body of a one-body system after [n] turns of the loop. *)
Definition coasting b (h : R) (n : nat) : Body R :=
  mkBody (name b) (mass b)
         (mkPoint (x (position b) + INR n * (x (velocity b) * h))
                  (y (position b) + INR n * (y (velocity b) * h))
                  (z (position b) + INR n * (z (velocity b) * h)))
         (velocity b) Point_init
         (map (line_sample (position b) (velocity b) h) (seq 0 (S n))).

End RealSpec.

(** ** Concrete systems *)

Section Examples.

Local Open Scope R_scope.
Local Open Scope string_scope.

Definition sun : Body R :=
  Body_init "Sun" 2 (mkPoint 0 0 0) (mkPoint 0 0 0).

Definition earth : Body R :=
  Body_init "Earth" 1 (mkPoint 1 0 0) (mkPoint 0 1 0).

(** Two bodies, [start = 0], [stop = 2], [dt = 1]. *)
Definition two_body : System R :=
  build_system 0 2 1 [ObjBody sun; ObjBody earth].

(** The same bodies with [start = 1 > stop = 0]. *)
Definition late_start : System R :=
  build_system 1 0 1 [ObjBody sun; ObjBody earth].

Definition probe : Body R :=
  Body_init "Probe" 1 (mkPoint 0 0 0) (mkPoint 1 2 3).

Definition lone_probe : System R := build_system 0 2 1 [ObjBody probe].

(** Two bodies of one name, neither with a positive mass. *)
Definition twin_a : Body R := Body_init "a" (-1) (mkPoint 0 0 0) (mkPoint 0 0 0).
Definition twin_b : Body R := Body_init "a" 0 (mkPoint 1 0 0) (mkPoint 0 0 0).

(** ... in a system that makes one turn of the loop, *)
Definition twins : System R :=
  build_system 0 0 1 [ObjBody twin_a; ObjBody twin_b].

(** ... and in one with a negative step. *)
Definition backwards : System R :=
  build_system 1 0 (-1) [ObjBody twin_a; ObjBody twin_b].

End Examples.

(** ** The drawing loop of [main]

    [main] hands the bodies that [start_sim] returns to matplotlib, one
    artist per body.  The artists are kept as data; an [IndexError] of
    [coords[i][k]] is [None]. *)

Section Drawing.

Context {num : Type} {arith : PyNum num}.

Implicit Types (b body : Body num).

(** One call of [ax.scatter] or [ax.plot]: the three coordinate arrays,
    the marker size [s] of a scatter, the colour [c] when one is given, and
    the label. *)
Inductive Artist : Type :=
| Scatter (xs ys zs : list num) (size : Z) (color label : string)
| Plot (xs ys zs : list num) (color : option string) (label : string).

Definition artist_label (a : Artist) : string :=
  match a with
  | Scatter _ _ _ _ _ label => label
  | Plot _ _ _ _ label => label
  end.

Definition artist_data (a : Artist) : list num * list num * list num :=
  match a with
  | Scatter xs ys zs _ _ _ => (xs, ys, zs)
  | Plot xs ys zs _ _ => (xs, ys, zs)
  end.

(** [str.lower] on the ASCII letters, which is all the names of [main]
    hold. *)
Definition lower_ascii (c : ascii) : ascii :=
  let n := nat_of_ascii c in
  if Nat.leb 65 n && Nat.leb n 90 then ascii_of_nat (n + 32) else c.

Fixpoint lower (s : string) : string :=
  match s with
  | EmptyString => EmptyString
  | String c rest => String (lower_ascii c) (lower rest)
  end.

(** A list comprehension whose element expression can raise. *)
Fixpoint all_some (A : Type) (l : list (option A)) : option (list A) :=
  match l with
  | [] => Some []
  | None :: _ => None
  | Some a :: rest =>
      match all_some rest with
      | Some r => Some (a :: r)
      | None => None
      end
  end.

(** [[coords[i][k] for i in range(0, len(coords))]] *)
Definition column (k : nat) (coords : list (list num)) : option (list num) :=
  all_some
    (map (fun i => match nth_error coords i with
                   | Some sample => nth_error sample k
                   | None => None
                   end)
         (seq 0 (length coords))).

(** The body of [for body in bodies] in [main]. *)
Definition draw_body body : option Artist :=
  let coords := position_list body in
  match column 0 coords with
  | None => None
  | Some x_pos =>
    match column 1 coords with
    | None => None
    | Some y_pos =>
      match column 2 coords with
      | None => None
      | Some z_pos =>
          let name' := lower (name body) in
          if String.eqb name' "sun" then
            Some (Scatter x_pos y_pos z_pos 50 "#FFEB65" (name body))
          else if String.eqb name' "earth" then
            Some (Plot x_pos y_pos z_pos (Some "#336FFA"%string) (name body))
          else if String.eqb name' "jupiter" then
            Some (Plot x_pos y_pos z_pos (Some "#B99543"%string) (name body))
          else
            Some (Plot x_pos y_pos z_pos None (name body))
      end
    end
  end.

Definition draw_bodies (bs : list (Body num)) : option (list Artist) :=
  all_some (map draw_body bs).

(** [b'] holds the samples of [b] and [m] more. *)
Definition extends (m : nat) b b' : Prop :=
  exists more, position_list b' = position_list b ++ more /\ length more = m.

(** Every sample is a list of three coordinates. *)
Definition well_shaped b : Prop :=
  Forall (fun sample : list num => length sample = 3%nat) (position_list b).

(** The entries of a list that are bodies, in order. *)
Definition bodies_among (entries : list (PyObject num)) : list (Body num) :=
  flat_map (fun o => match o with ObjBody b => [b] | _ => [] end) entries.

(** The three arrays of an artist put back into samples. *)
Fixpoint samples_of (xs ys zs : list num) : list (list num) :=
  match xs, ys, zs with
  | a :: xs', b :: ys', c :: zs' => [a; b; c] :: samples_of xs' ys' zs'
  | _, _, _ => []
  end.

(** The artist of [b] carries the name and the samples of [b]. *)
Definition draws b (a : Artist) : Prop :=
  artist_label a = name b /\
  let '(xs, ys, zs) := artist_data a in
  samples_of xs ys zs = position_list b.

End Drawing.

(** ** Conserved quantities, over the real numbers *)

Section RealMechanics.

Local Open Scope R_scope.

Implicit Types (s : System R) (b o : Body R) (p q : Point R).

(** The sum of [f] over a list. *)
Definition rsum (A : Type) (f : A -> R) (l : list A) : R :=
  fold_right (fun a r => f a + r) 0 l.

Definition scale (k : R) p : Point R := mkPoint (k * x p) (k * y p) (k * z p).

Definition cross p q : Point R :=
  mkPoint (y p * z q - z p * y q)
          (z p * x q - x p * z q)
          (x p * y q - y p * x q).

(** What [o] adds to the acceleration of [b] in [get_acc_for_body]. *)
Definition force_on b o : Point R :=
  if contributes b o then pull b o else vzero.

(** The total momentum: the sum of [mass * velocity]. *)
Definition momentum (bs : list (Body R)) : Point R :=
  vsum (map (fun b => scale (mass b) (velocity b)) bs).

(** The sum of [mass * position]: the total mass times the centre of
    mass. *)
Definition mass_moment (bs : list (Body R)) : Point R :=
  vsum (map (fun b => scale (mass b) (position b)) bs).

(** The total angular momentum about the origin. *)
Definition angular_momentum (bs : list (Body R)) : Point R :=
  vsum (map (fun b => scale (mass b) (cross (position b) (velocity b))) bs).

(** The body [b] moved by the vector [c]. *)
Definition shift (c : Point R) b : Body R :=
  set_position b (vadd (position b) c).

(** A linear map of vectors for each body. *)
Definition linear (T : Body R -> Point R -> Point R) : Prop :=
  (forall b, T b vzero = vzero) /\
  (forall b p q, T b (vadd p q) = vadd (T b p) (T b q)).

End RealMechanics.

(** ** More concrete systems *)

Section MoreExamples.

Local Open Scope R_scope.
Local Open Scope string_scope.

(** [two_body] with the bodies added the other way round. *)
Definition two_body_swapped : System R :=
  build_system 0 2 1 [ObjBody earth; ObjBody sun].

(** [earth] at the same place with another velocity and another mass. *)
Definition fast_earth : Body R :=
  Body_init "Earth" 7 (mkPoint 1 0 0) (mkPoint 5 5 5).

(** A system whose step is negative while the clock is not past [stop]. *)
Definition stalled : System R :=
  build_system 0 1 (-1) [ObjBody sun; ObjBody earth].

End MoreExamples.

(** * Proofs *)

(** ** Two facts about lists *)

Section ListFacts.

Variables A B : Type.

Lemma map_eq_Forall2 (f : A -> B) :
  forall l l', map f l' = map f l -> Forall2 (fun a a' => f a' = f a) l l'.
Proof.
  induction l as [|a l IH]; intros [|a' l'] H; simpl in H; try discriminate.
  - constructor.
  - injection H as Ha Hl. constructor; auto.
Qed.

Lemma Forall2_map_same (P : A -> Prop) (Q : A -> B -> Prop) (f : A -> B) :
  (forall a, P a -> Q a (f a)) ->
  forall l, Forall P l -> Forall2 Q l (map f l).
Proof.
  intros HPQ l H; induction H; simpl; constructor; auto.
Qed.

End ListFacts.

(** ** Sweeps over the body list *)

Section Sweeps.

Context {num : Type} {arith : PyNum num}.

Local Open Scope py_scope.

Implicit Types (self s : System num) (b body : Body num).

Lemma for_body_in_map step (f : Body num -> Body num) self :
  (forall l b, step (set_bodies self l) b = f b) ->
  forall todo done, for_body_in step self done todo = done ++ map f todo.
Proof.
  intros Hstep todo; induction todo as [|b rest IH]; intros done; simpl.
  - now rewrite app_nil_r.
  - rewrite IH, Hstep, <- app_assoc. reflexivity.
Qed.

Lemma acc_step_source body b b' acc :
  source_of b = source_of b' -> acc_step body acc b = acc_step body acc b'.
Proof.
  unfold source_of, acc_step; intros H; injection H as Hn Hm Hp.
  now rewrite Hn, Hm, Hp.
Qed.

Lemma acc_loop_source body :
  forall l l' acc,
    map source_of l = map source_of l' ->
    acc_loop body acc l = acc_loop body acc l'.
Proof.
  induction l as [|b l IH]; intros [|b' l'] acc H; simpl in *;
    try discriminate; auto.
  injection H as Hn Hm Hp Hl.
  assert (Hb : source_of b = source_of b') by (unfold source_of; congruence).
  rewrite (acc_step_source body acc Hb). now apply IH.
Qed.

Lemma get_acc_for_body_source s s' body :
  map source_of (bodies s) = map source_of (bodies s') ->
  get_acc_for_body s body = get_acc_for_body s' body.
Proof. unfold get_acc_for_body; intros H; now apply acc_loop_source. Qed.

(** The sweep of [__calculate_acc_for_all_bodies]: the bodies already done
    carry new accelerations, which no later turn reads. *)
Lemma calc_sweep self snap :
  forall todo done,
    map source_of (done ++ todo) = map source_of (bodies snap) ->
    for_body_in assign_acc self done todo
    = done ++ map (accelerate snap) todo.
Proof.
  induction todo as [|b rest IH]; intros done H; simpl.
  - now rewrite app_nil_r.
  - rewrite IH.
    + rewrite <- app_assoc; simpl. unfold accelerate at 2, assign_acc.
      rewrite (get_acc_for_body_source
                 (set_bodies self (done ++ b :: rest)) snap b H).
      reflexivity.
    + rewrite <- H, <- app_assoc. simpl.
      rewrite !map_app. reflexivity.
Qed.

Lemma calculate_acc_snapshot self :
  calculate_acc_for_all_bodies self
  = set_bodies self (map (accelerate self) (bodies self)).
Proof.
  unfold calculate_acc_for_all_bodies, for_each_body.
  now rewrite (calc_sweep self self (bodies self) []).
Qed.

Lemma update_vel_kick self h :
  update_vel_for_all_bodies self h = set_bodies self (map (kick h) (bodies self)).
Proof.
  unfold update_vel_for_all_bodies, for_each_body.
  now rewrite (for_body_in_map _ (kick h)) by reflexivity.
Qed.

Lemma update_pos_drift self :
  update_pos_for_all_bodies self
  = set_bodies self (map (drift (dt self)) (bodies self)).
Proof.
  unfold update_pos_for_all_bodies, for_each_body.
  now rewrite (for_body_in_map _ (drift (dt self))) by reflexivity.
Qed.

Lemma add_pos_record self :
  add_pos_to_list_for_all_bodies self
  = set_bodies self (map add_current_pos_to_list (bodies self)).
Proof.
  unfold add_pos_to_list_for_all_bodies, for_each_body.
  now rewrite (for_body_in_map _ add_current_pos_to_list) by reflexivity.
Qed.

Lemma sim_prologue_kdk s : sim_prologue s = kdk_init s.
Proof.
  unfold sim_prologue, kdk_init.
  rewrite calculate_acc_snapshot, update_vel_kick, add_pos_record.
  reflexivity.
Qed.

Lemma sim_loop_body_kdk s : sim_loop_body s = kdk_step s.
Proof.
  unfold sim_loop_body, kdk_step.
  rewrite update_pos_drift, calculate_acc_snapshot, update_vel_kick,
    add_pos_record.
  reflexivity.
Qed.

Lemma sim_state_kdk n s : sim_state n s = kdk_run n s.
Proof.
  unfold sim_state, kdk_run. rewrite sim_prologue_kdk.
  induction n as [|n IH]; simpl; [reflexivity|].
  now rewrite IH, sim_loop_body_kdk.
Qed.

End Sweeps.

(** ** The time loop *)

Section Loop.

Context {num : Type} {arith : PyNum num}.

Local Open Scope py_scope.

Implicit Types (self s : System num) (b body : Body num).

Lemma sim_loop_done fuel s : guard s = false -> sim_loop fuel s = Some s.
Proof. unfold guard; intros H; destruct fuel; simpl; now rewrite H. Qed.

Lemma sim_loop_turn fuel s :
  guard s = true -> sim_loop (S fuel) s = sim_loop fuel (sim_loop_body s).
Proof. unfold guard; intros H; simpl; now rewrite H. Qed.

(** If the guard holds before each of the first [n] turns and fails after
    them, the loop makes exactly [n] turns, whatever fuel is left over. *)
Lemma sim_loop_exact :
  forall n s fuel,
    (forall k, (k < n)%nat -> guard (Nat.iter k sim_loop_body s) = true) ->
    guard (Nat.iter n sim_loop_body s) = false ->
    (n <= fuel)%nat ->
    sim_loop fuel s = Some (Nat.iter n sim_loop_body s).
Proof.
  induction n as [|n IH]; intros s fuel Hlt Hn Hfuel.
  - now apply sim_loop_done.
  - destruct fuel as [|fuel]; [lia|].
    rewrite sim_loop_turn by (apply (Hlt 0%nat); lia).
    rewrite Nat.iter_succ_r. apply IH.
    + intros k Hk. rewrite <- Nat.iter_succ_r. apply Hlt; lia.
    + now rewrite <- Nat.iter_succ_r.
    + lia.
Qed.

(** Conversely, a loop that returns has made some [n] turns, with the guard
    true before each and false at the end. *)
Lemma sim_loop_turns :
  forall fuel s s',
    sim_loop fuel s = Some s' ->
    exists n, (n <= fuel)%nat /\ s' = Nat.iter n sim_loop_body s /\
              (forall k, (k < n)%nat ->
                         guard (Nat.iter k sim_loop_body s) = true) /\
              guard s' = false.
Proof.
  induction fuel as [|fuel IH]; intros s s' H.
  - simpl in H. destruct (t s <=? stop s) eqn:E; [discriminate|].
    injection H as <-. exists 0%nat; repeat split; auto; intros; lia.
  - destruct (guard s) eqn:E.
    + rewrite sim_loop_turn in H by assumption.
      destruct (IH _ _ H) as (n & Hle & -> & Hlt & Hend).
      exists (S n); repeat split.
      * lia.
      * now rewrite Nat.iter_succ_r.
      * intros [|k] Hk; [exact E|].
        rewrite Nat.iter_succ_r. apply Hlt; lia.
      * exact Hend.
    + rewrite sim_loop_done in H by assumption. injection H as <-.
      exists 0%nat; repeat split; auto; intros; lia.
Qed.

(** With the guard true before every turn the fuel allows, the loop is
    still running when the fuel is gone. *)
Lemma sim_loop_running :
  forall fuel s,
    (forall k, (k <= fuel)%nat -> guard (Nat.iter k sim_loop_body s) = true) ->
    sim_loop fuel s = None.
Proof.
  induction fuel as [|fuel IH]; intros s H.
  - simpl. generalize (H 0%nat (Nat.le_refl _)); unfold guard; simpl.
    now intros ->.
  - rewrite sim_loop_turn by (apply (H 0%nat); lia).
    apply IH. intros k Hk. rewrite <- Nat.iter_succ_r. apply H; lia.
Qed.

Lemma start_sim_exact n s fuel :
  (forall k, (k < n)%nat -> guard (sim_state k s) = true) ->
  guard (sim_state n s) = false ->
  (n <= fuel)%nat ->
  start_sim fuel s = Some (bodies (sim_state n s), sim_state n s).
Proof.
  intros Hlt Hn Hfuel. unfold start_sim.
  now rewrite (@sim_loop_exact n (sim_prologue s) fuel Hlt Hn Hfuel).
Qed.

Lemma start_sim_turns fuel s bs s' :
  start_sim fuel s = Some (bs, s') ->
  exists n, (n <= fuel)%nat /\ s' = sim_state n s /\ bs = bodies s' /\
            (forall k, (k < n)%nat -> guard (sim_state k s) = true) /\
            guard s' = false.
Proof.
  unfold start_sim. destruct (sim_loop fuel (sim_prologue s)) as [s1|] eqn:E;
    [|discriminate].
  intros H; injection H as <- <-.
  destruct (sim_loop_turns _ _ E) as (n & Hle & Heq & Hlt & Hend).
  exists n; repeat split; auto.
Qed.

(** The clock-side fields are the caller's throughout. *)
Lemma kdk_init_fields s :
  start (kdk_init s) = start s /\ stop (kdk_init s) = stop s /\
  dt (kdk_init s) = dt s /\ t (kdk_init s) = t s.
Proof. repeat split. Qed.

Lemma kdk_step_fields s :
  start (kdk_step s) = start s /\ stop (kdk_step s) = stop s /\
  dt (kdk_step s) = dt s /\ t (kdk_step s) = t s + dt s.
Proof. repeat split. Qed.

Lemma kdk_run_fields n s :
  start (kdk_run n s) = start s /\ stop (kdk_run n s) = stop s /\
  dt (kdk_run n s) = dt s.
Proof.
  unfold kdk_run. induction n as [|n (IH1 & IH2 & IH3)]; simpl.
  - repeat split.
  - repeat split; assumption.
Qed.

End Loop.

(** ** Properties that hold for every arithmetic *)

Section Structure.

Context {num : Type} {arith : PyNum num}.

Local Open Scope py_scope.

Implicit Types (self s : System num) (b body : Body num).

Lemma states_seen_kinematics step self :
  (forall now b, kinematics (step now b) = kinematics b) ->
  forall todo done,
    Forall (fun now => map kinematics (bodies now) = map kinematics (done ++ todo))
           (states_seen step self done todo).
Proof.
  intros Hstep; induction todo as [|b rest IH]; intros done; simpl.
  - constructor.
  - constructor; [reflexivity|].
    specialize (IH (done ++ [step (set_bodies self (done ++ b :: rest)) b])).
    rewrite <- app_assoc in IH; simpl in IH.
    eapply Forall_impl; [|exact IH].
    intros now ->. rewrite !map_app; simpl. now rewrite Hstep.
Qed.

(** C7. One sweep of [__calculate_acc_for_all_bodies] gives every body the
    acceleration that [get_acc_for_body] computes from the state the sweep
    started in; every call of the sweep runs in a state whose positions and
    velocities are those of the start, and the sweep leaves them so. *)
Theorem acceleration_sweep_single_snapshot (self : System num) :
  calculate_acc_for_all_bodies self
  = set_bodies self
      (map (fun b => set_acceleration b (get_acc_for_body self b))
           (bodies self))
  /\ Forall (fun now =>
               map position (bodies now) = map position (bodies self) /\
               map velocity (bodies now) = map velocity (bodies self))
            (states_seen assign_acc self [] (bodies self))
  /\ map position (bodies (calculate_acc_for_all_bodies self))
     = map position (bodies self)
  /\ map velocity (bodies (calculate_acc_for_all_bodies self))
     = map velocity (bodies self).
Proof.
  split; [apply calculate_acc_snapshot|]. split.
  - eapply Forall_impl;
      [|apply (@states_seen_kinematics assign_acc self
                 (fun _ _ => eq_refl) (bodies self) [])].
    simpl. intros now H.
    assert (Hp : map fst (map kinematics (bodies now))
                 = map fst (map kinematics (bodies self))) by now rewrite H.
    assert (Hv : map snd (map kinematics (bodies now))
                 = map snd (map kinematics (bodies self))) by now rewrite H.
    rewrite !map_map in Hp, Hv. split; assumption.
  - rewrite calculate_acc_snapshot; simpl. rewrite !map_map. split; reflexivity.
Qed.

(** C9. [add_body] appends a [Body] and returns 0; anything else is left
    out, 1 is returned and the receiver is untouched, so that a later run is
    the run of the bodies added before. *)
Theorem add_body_result (s : System num) (v : PyObject num) :
  match v with
  | ObjBody b =>
      returned (add_body s v) = 0%Z /\
      bodies (self_after (add_body s v)) = bodies s ++ [b]
  | _ =>
      returned (add_body s v) = 1%Z /\
      bodies (self_after (add_body s v)) = bodies s /\
      self_after (add_body s v) = s /\
      forall fuel, start_sim fuel (self_after (add_body s v)) = start_sim fuel s
  end.
Proof. destruct v; simpl; repeat split. Qed.

Lemma identity_kdk_init s :
  map identity_of (bodies (kdk_init s)) = map identity_of (bodies s).
Proof. unfold kdk_init; simpl. rewrite !map_map. reflexivity. Qed.

Lemma identity_kdk_step s :
  map identity_of (bodies (kdk_step s)) = map identity_of (bodies s).
Proof. unfold kdk_step; simpl. rewrite !map_map. reflexivity. Qed.

Lemma identity_kdk_run n s :
  map identity_of (bodies (kdk_run n s)) = map identity_of (bodies s).
Proof.
  unfold kdk_run. induction n as [|n IH].
  - apply identity_kdk_init.
  - now rewrite Nat.iter_succ, identity_kdk_step.
Qed.

Theorem start_sim_keeps_bodies fuel (s : System num) bs s' :
  start_sim fuel s = Some (bs, s') ->
  bs = bodies s' /\
  length bs = length (bodies s) /\
  Forall2 (fun b b' => name b' = name b /\ mass b' = mass b) (bodies s) bs.
Proof.
  intros H. destruct (start_sim_turns _ _ H) as (n & _ & -> & -> & _).
  rewrite sim_state_kdk.
  assert (Hid := identity_kdk_run n s).
  split; [reflexivity|]. split.
  - rewrite <- (length_map identity_of), Hid. apply length_map.
  - eapply Forall2_impl; [|apply map_eq_Forall2, Hid].
    unfold identity_of; intros a a' E; injection E; auto.
Qed.

Lemma samples_kdk_init s k :
  Forall (fun b => length (position_list b) = k) (bodies s) ->
  Forall (fun b => length (position_list b) = S k) (bodies (kdk_init s)).
Proof.
  unfold kdk_init; simpl. rewrite !Forall_map. apply Forall_impl.
  intros b H; simpl. rewrite length_app, H; simpl. lia.
Qed.

Lemma samples_kdk_step s k :
  Forall (fun b => length (position_list b) = k) (bodies s) ->
  Forall (fun b => length (position_list b) = S k) (bodies (kdk_step s)).
Proof.
  unfold kdk_step; simpl. rewrite !Forall_map. apply Forall_impl.
  intros b H; simpl. rewrite length_app, H; simpl. lia.
Qed.

Lemma samples_kdk_run n s k :
  Forall (fun b => length (position_list b) = k) (bodies s) ->
  Forall (fun b => length (position_list b) = (k + n + 1)%nat)
         (bodies (kdk_run n s)).
Proof.
  intros H. unfold kdk_run. induction n as [|n IH].
  - replace (k + 0 + 1)%nat with (S k) by lia. now apply samples_kdk_init.
  - replace (k + S n + 1)%nat with (S (k + n + 1)) by lia.
    rewrite Nat.iter_succ. now apply samples_kdk_step.
Qed.



(** A run whose guard fails at once stops after the prologue. *)
Lemma start_sim_no_turn fuel s :
  guard s = false ->
  start_sim fuel s = Some (bodies (kdk_init s), kdk_init s).
Proof.
  intros H. rewrite <- sim_prologue_kdk.
  apply (@start_sim_exact _ _ 0 s fuel).
  - intros k Hk; inversion Hk.
  - unfold sim_state; simpl. rewrite sim_prologue_kdk. exact H.
  - apply Nat.le_0_l.
Qed.

End Structure.

Section SelfExclusion.

Context {num : Type} {arith : PyNum num}.

Implicit Types (s : System num) (b o : Body num).

Lemma acc_step_same_name b acc o :
  String.eqb (name o) (name b) = true -> acc_step b acc o = acc.
Proof.
  intros H. unfold acc_step. rewrite String.eqb_sym, H. reflexivity.
Qed.

Lemma acc_loop_others b :
  forall l acc, acc_loop b acc l = acc_loop b acc (others_of b l).
Proof.
  induction l as [|o l IH]; intros acc; simpl; [reflexivity|].
  destruct (String.eqb (name o) (name b)) eqn:E; simpl.
  - rewrite (acc_step_same_name b acc o E). apply IH.
  - apply IH.
Qed.

Lemma get_acc_for_body_alone s b :
  others_of b (bodies s) = [] -> get_acc_for_body s b = Point_init.
Proof.
  intros H. unfold get_acc_for_body. now rewrite acc_loop_others, H.
Qed.

End SelfExclusion.

(** ** Construction performs no validation *)

Section Construction.

Context {num : Type} {arith : PyNum num}.

Implicit Types (s : System num) (b : Body num).

Lemma add_bodies_fold :
  forall (l : list (Body num)) s,
    fold_left (fun s o => self_after (add_body s o)) (map (@ObjBody num) l) s
    = set_bodies s (bodies s ++ l).
Proof.
  induction l as [|b l IH]; intros s; simpl.
  - rewrite app_nil_r. now destruct s.
  - rewrite IH. unfold set_bodies; simpl. now rewrite <- app_assoc.
Qed.

(** C4, as the code has it.  [System(start, stop, dt)] stores its arguments
    as they come and [add_body] appends every [Body] and returns 0, whatever
    the names, the masses and the step are; the prologue of [start_sim]
    then records one sample for each of these bodies. *)
Theorem construction_accepts_every_body (start0 stop0 dt0 : num)
    (bs : list (Body num)) :
  let s := build_system start0 stop0 dt0 (map (@ObjBody num) bs) in
  bodies s = bs /\
  start s = start0 /\ stop s = stop0 /\ dt s = dt0 /\ t s = start0 /\
  (forall s1 b, returned (add_body s1 (ObjBody b)) = 0%Z /\
                bodies (self_after (add_body s1 (ObjBody b)))
                = bodies s1 ++ [b]) /\
  Forall2 (fun b b' =>
             position_list b'
             = position_list b ++ [get_point_as_list (position b)])
          bs (bodies (sim_prologue s)).
Proof.
  unfold build_system. rewrite add_bodies_fold. cbn zeta.
  repeat split.
  rewrite sim_prologue_kdk. unfold kdk_init.
  cbn [bodies set_bodies System_init app]. rewrite !map_map.
  apply (@Forall2_map_same _ _ (fun _ => True)); [reflexivity|].
  apply Forall_forall; auto.
Qed.

End Construction.

(** ** Properties over the real numbers *)

Section RealClock.

Local Open Scope R_scope.

Implicit Types (s : System R) (b o : Body R).

Lemma Rleb_true (u v : R) : Rleb u v = true <-> u <= v.
Proof. unfold Rleb; destruct (Rle_dec u v); split; auto; discriminate. Qed.

Lemma Rleb_false (u v : R) : Rleb u v = false <-> v < u.
Proof.
  unfold Rleb; destruct (Rle_dec u v); split; auto; try discriminate; lra.
Qed.

Lemma guard_true s : guard s = true <-> t s <= stop s.
Proof. apply Rleb_true. Qed.

Lemma guard_false s : guard s = false <-> stop s < t s.
Proof. apply Rleb_false. Qed.

Lemma kdk_run_t n s : t (kdk_run n s) = t s + INR n * dt s.
Proof.
  unfold kdk_run. induction n as [|n IH].
  - simpl. lra.
  - rewrite Nat.iter_succ.
    destruct (kdk_step_fields (Nat.iter n kdk_step (kdk_init s)))
      as (_ & _ & _ & ->).
    fold (kdk_run n s) in *.
    destruct (kdk_run_fields n s) as (_ & _ & ->).
    rewrite IH, S_INR. simpl. lra.
Qed.

Lemma kdk_run_stop n s : stop (kdk_run n s) = stop s.
Proof. apply kdk_run_fields. Qed.

(** The guard holds before turn [k] exactly when [k < turns s]. *)
Lemma turns_spec s k :
  0 < dt s -> (t s + INR k * dt s <= stop s <-> (k < turns s)%nat).
Proof.
  intros Hdt. unfold turns. destruct (Rle_dec (t s) (stop s)) as [Hle|Hgt].
  - set (q := (stop s - t s) / dt s).
    assert (Hq : q * dt s = stop s - t s) by (unfold q; field; lra).
    destruct (base_Int_part q) as [Hlo Hhi].
    assert (Hq0 : 0 <= q).
    { destruct (Rle_dec 0 q) as [|Hneg]; [assumption|].
      assert (q * dt s < 0) by (apply Rmult_neg_pos; lra). lra. }
    assert (HN : (0 <= Int_part q)%Z).
    { apply Z.lt_succ_r, lt_IZR. rewrite succ_IZR. lra. }
    rewrite INR_IZR_INZ. split.
    + intros H.
      assert (Hk : IZR (Z.of_nat k) <= q) by nra.
      assert (Hlt : (Z.of_nat k < Int_part q + 1)%Z).
      { apply lt_IZR. rewrite plus_IZR. lra. }
      lia.
    + intros H.
      assert (Hk : (Z.of_nat k <= Int_part q)%Z) by lia.
      apply IZR_le in Hk. nra.
  - assert (0 <= INR k) by apply pos_INR. split; [nra | lia].
Qed.

Lemma guard_kdk_run s k :
  0 < dt s -> (guard (kdk_run k s) = true <-> (k < turns s)%nat).
Proof.
  intros Hdt. rewrite guard_true, kdk_run_t, kdk_run_stop.
  now apply turns_spec.
Qed.

Lemma guard_kdk_run_end s :
  0 < dt s -> guard (kdk_run (turns s) s) = false.
Proof.
  intros Hdt. destruct (guard (kdk_run (turns s) s)) eqn:E; [|reflexivity].
  apply guard_kdk_run in E; [lia | assumption].
Qed.

(** With a positive step the run returns, after [turns s] turns. *)
Lemma start_sim_returns s fuel :
  0 < dt s -> (turns s <= fuel)%nat ->
  start_sim fuel s = Some (bodies (kdk_run (turns s) s), kdk_run (turns s) s).
Proof.
  intros Hdt Hfuel. rewrite <- sim_state_kdk.
  apply start_sim_exact; [| |assumption].
  - intros k Hk. rewrite sim_state_kdk. now apply guard_kdk_run.
  - rewrite sim_state_kdk. now apply guard_kdk_run_end.
Qed.


(** A step that is not positive never takes the clock past [stop]. *)
Lemma start_sim_diverges s fuel :
  dt s <= 0 -> t s <= stop s -> start_sim fuel s = None.
Proof.
  intros Hdt Hle. unfold start_sim.
  rewrite sim_loop_running; [reflexivity|].
  intros k _. fold (sim_state k s). rewrite sim_state_kdk.
  apply guard_true. rewrite kdk_run_t, kdk_run_stop.
  assert (0 <= INR k) by apply pos_INR. nra.
Qed.

End RealClock.

Section RealForce.

Local Open Scope R_scope.

Implicit Types (s : System R) (b o : Body R) (p q : Point R).

Lemma lit_G : @G R RealNum = 6.67259e-11.
Proof. unfold G; simpl. lra. Qed.

Lemma lit_epsilon : @lit R RealNum 10 (-10) = 1e-9.
Proof. simpl. lra. Qed.

Lemma lit_zero : @zero R RealNum = 0.
Proof. unfold zero; simpl. lra. Qed.

Lemma Point_init_vzero : @Point_init R RealNum = vzero.
Proof. unfold Point_init, vzero. now rewrite lit_zero. Qed.

Lemma vadd_zero p : vadd p vzero = p.
Proof. destruct p; unfold vadd, vzero; simpl. f_equal; lra. Qed.

Lemma vadd_assoc p q r : vadd (vadd p q) r = vadd p (vadd q r).
Proof. unfold vadd; simpl. f_equal; lra. Qed.

Lemma acc_step_pull b acc o :
  acc_step b acc o = if contributes b o then vadd acc (pull b o) else acc.
Proof.
  unfold acc_step, contributes. rewrite (String.eqb_sym (name o)).
  destruct (String.eqb (name b) (name o)); cbn [negb andb]; [reflexivity|].
  change (@pgtb R RealNum) with Rgtb. rewrite lit_epsilon.
  change (@psqrt R RealNum
            (@padd R RealNum
               (@padd R RealNum
                  (@pmul R RealNum
                     (@psub R RealNum (x (position b)) (x (position o)))
                     (@psub R RealNum (x (position b)) (x (position o))))
                  (@pmul R RealNum
                     (@psub R RealNum (y (position b)) (y (position o)))
                     (@psub R RealNum (y (position b)) (y (position o)))))
               (@pmul R RealNum
                  (@psub R RealNum (z (position b)) (z (position o)))
                  (@psub R RealNum (z (position b)) (z (position o))))))
    with (norm (separation b o)).
  change (@ppow R RealNum) with pow.
  destruct (Rgtb (norm (separation b o) ^ 3) 1e-9); [|reflexivity].
  unfold vadd, pull. rewrite lit_G. reflexivity.
Qed.

Lemma acc_loop_sum b :
  forall l acc, acc_loop b acc l = vadd acc (net_acceleration l b).
Proof.
  unfold net_acceleration.
  induction l as [|o l IH]; intros acc; simpl.
  - now rewrite vadd_zero.
  - rewrite IH, acc_step_pull.
    destruct (contributes b o); simpl; [|reflexivity].
    now rewrite vadd_assoc.
Qed.

(** C2. [get_acc_for_body] returns the componentwise sum, over the bodies
    [o] of the system whose name differs from the name of [b] and whose
    distance [r] to [b] satisfies [r^3 > 1e-9], of
    [-(G * o.mass * (b.position - o.position)) / r^3], with
    [G = 6.67259e-11]; a body that fails either test adds nothing. *)
Theorem get_acc_for_body_force_law (s : System R) (b : Body R) :
  get_acc_for_body s b
  = vsum (map (pull b) (filter (contributes b) (bodies s))).
Proof.
  unfold get_acc_for_body. rewrite acc_loop_sum, Point_init_vzero.
  fold (net_acceleration (bodies s) b).
  destruct (net_acceleration (bodies s) b); unfold vadd, vzero; simpl.
  f_equal; lra.
Qed.

End RealForce.

Section RealRun.

Local Open Scope R_scope.

Implicit Types (s : System R) (b o : Body R) (p q : Point R).





End RealRun.

Section RealLine.

Local Open Scope R_scope.

Implicit Types (s : System R) (b o : Body R) (p q : Point R).

Lemma others_of_self b : others_of b [b] = [].
Proof. unfold others_of; simpl. now rewrite String.eqb_refl. Qed.

Lemma kick_at_rest b (h : R) :
  acceleration b = Point_init -> kick h b = b.
Proof.
  destruct b as [nm m p [vx vy vz] a l]; cbn [acceleration]; intros ->.
  unfold kick, set_velocity, Point_init.
  cbn [name mass position velocity acceleration position_list x y z].
  rewrite lit_zero.
  change (@padd R RealNum) with Rplus. change (@pmul R RealNum) with Rmult.
  replace (vx + 0 * h) with vx by lra.
  replace (vy + 0 * h) with vy by lra.
  replace (vz + 0 * h) with vz by lra.
  reflexivity.
Qed.

Lemma coasting_init s b :
  bodies s = [b] -> position_list b = [] ->
  bodies (kdk_init s) = [coasting b (dt s) 0].
Proof.
  intros Hb Hl. unfold kdk_init; simpl. rewrite Hb; simpl.
  unfold accelerate.
  rewrite get_acc_for_body_alone by (rewrite Hb; apply others_of_self).
  rewrite kick_at_rest by reflexivity.
  unfold coasting, add_current_pos_to_list, line_sample; simpl.
  rewrite Hl; simpl.
  destruct (position b) as [px py pz]; simpl.
  repeat f_equal; lra.
Qed.

Lemma coasting_succ b (h : R) (n : nat) :
  coasting b h (S n)
  = let c := coasting b h n in
    let p' := mkPoint (x (position c) + x (velocity c) * h)
                      (y (position c) + y (velocity c) * h)
                      (z (position c) + z (velocity c) * h) in
    mkBody (name b) (mass b) p' (velocity b) Point_init
           (position_list c ++ [[x p'; y p'; z p']]).
Proof.
  unfold coasting at 1. rewrite (seq_S (S n)), map_app.
  cbn [map Nat.add coasting position velocity position_list x y z].
  unfold line_sample at 2.
  rewrite !S_INR.
  replace (x (position b) + (INR n + 1) * (x (velocity b) * h))
    with (x (position b) + INR n * (x (velocity b) * h) + x (velocity b) * h)
    by lra.
  replace (y (position b) + (INR n + 1) * (y (velocity b) * h))
    with (y (position b) + INR n * (y (velocity b) * h) + y (velocity b) * h)
    by lra.
  replace (z (position b) + (INR n + 1) * (z (velocity b) * h))
    with (z (position b) + INR n * (z (velocity b) * h) + z (velocity b) * h)
    by lra.
  reflexivity.
Qed.

Lemma coasting_step s b (n : nat) :
  bodies s = [coasting b (dt s) n] ->
  bodies (kdk_step s) = [coasting b (dt s) (S n)].
Proof.
  intros Hb. unfold kdk_step; simpl. rewrite Hb.
  cbn [map]. unfold accelerate.
  rewrite get_acc_for_body_alone by (apply others_of_self).
  rewrite kick_at_rest by reflexivity.
  rewrite coasting_succ. reflexivity.
Qed.

Lemma coasting_run s b :
  bodies s = [b] -> position_list b = [] ->
  forall n, bodies (kdk_run n s) = [coasting b (dt s) n].
Proof.
  intros Hb Hl n. unfold kdk_run. induction n as [|n IH].
  - now apply coasting_init.
  - rewrite Nat.iter_succ. fold (kdk_run n s) in *.
    destruct (kdk_run_fields n s) as (_ & _ & Hdt).
    rewrite <- Hdt. apply coasting_step. now rewrite Hdt.
Qed.

Lemma line_at_rest p (h : R) (n : nat) :
  map (line_sample p vzero h) (seq 0 n) = repeat (get_point_as_list p) n.
Proof.
  assert (H : forall m k, map (line_sample p vzero h) (seq k m)
                          = repeat (get_point_as_list p) m).
  { induction m as [|m IH]; intros k; simpl; [reflexivity|].
    rewrite IH. f_equal.
    unfold line_sample, get_point_as_list, vzero; simpl.
    repeat f_equal; lra. }
  apply H.
Qed.

(** C8. A body takes no acceleration from the bodies of its own name, so
    none from itself.  In a system of one new body the acceleration is the
    zero vector, the velocity never changes, and the [k]-th recorded sample
    is the initial position plus [k] times [velocity * dt]: a straight
    line, and a single repeated point when the velocity is zero. *)
Theorem self_exclusion_single_body (s : System R) (b : Body R) :
  bodies s = [b] ->
  position_list b = [] ->
  (forall s' b', get_acc_for_body s' b'
                 = get_acc_for_body (set_bodies s' (others_of b' (bodies s'))) b')
  /\ get_acc_for_body s b = mkPoint 0 0 0
  /\ (forall n, exists b',
        bodies (sim_state n s) = [b'] /\
        velocity b' = velocity b /\
        position_list b'
        = map (line_sample (position b) (velocity b) (dt s)) (seq 0 (S n)) /\
        (velocity b = mkPoint 0 0 0 ->
         position_list b' = repeat (get_point_as_list (position b)) (S n)))
  /\ (forall fuel bs s',
        start_sim fuel s = Some (bs, s') ->
        exists n b',
          bs = [b'] /\
          position_list b'
          = map (line_sample (position b) (velocity b) (dt s)) (seq 0 (S n))).
Proof.
  intros Hb Hl.
  assert (Hrun : forall n, bodies (sim_state n s) = [coasting b (dt s) n]).
  { intros n. rewrite sim_state_kdk. now apply coasting_run. }
  repeat split.
  - intros s' b'. unfold get_acc_for_body; simpl. apply acc_loop_others.
  - rewrite get_acc_for_body_alone by (rewrite Hb; apply others_of_self).
    apply Point_init_vzero.
  - intros n. exists (coasting b (dt s) n). repeat split.
    + apply Hrun.
    + intros Hv. unfold coasting; cbn [position_list]. rewrite Hv.
      apply line_at_rest.
  - intros fuel bs s' H.
    destruct (start_sim_turns _ _ H) as (n & _ & -> & -> & _).
    exists n, (coasting b (dt s) n). split; [apply Hrun | reflexivity].
Qed.

End RealLine.

Section Instances.

Local Open Scope R_scope.
Local Open Scope string_scope.

Lemma late_start_returns fuel :
  start_sim fuel late_start
  = Some (bodies (kdk_init late_start), kdk_init late_start).
Proof. apply start_sim_no_turn, guard_false. simpl. lra. Qed.

Lemma backwards_returns fuel :
  start_sim fuel backwards
  = Some (bodies (kdk_init backwards), kdk_init backwards).
Proof. apply start_sim_no_turn, guard_false. simpl. lra. Qed.

Lemma twins_returns fuel :
  (1 <= fuel)%nat ->
  start_sim fuel twins = Some (bodies (kdk_run 1 twins), kdk_run 1 twins).
Proof.
  intros Hfuel. rewrite <- sim_state_kdk.
  apply start_sim_exact; [| |assumption].
  - intros k Hk. rewrite sim_state_kdk. apply guard_true.
    rewrite kdk_run_t, kdk_run_stop.
    assert (k = 0%nat) as -> by lia. simpl. lra.
  - rewrite sim_state_kdk. apply guard_false.
    rewrite kdk_run_t, kdk_run_stop. simpl. lra.
Qed.

Lemma earth_sun_distance : norm (separation earth sun) = 1.
Proof.
  unfold norm, separation; simpl.
  replace ((1 - 0) * (1 - 0) + (0 - 0) * (0 - 0) + (0 - 0) * (0 - 0))
    with 1 by lra.
  apply sqrt_1.
Qed.

(** The acceleration of [earth] in [two_body]: the pull of [sun] at
    distance 1, and nothing from [earth] itself. *)
Example earth_acceleration :
  get_acc_for_body two_body earth = mkPoint (- (6.67259e-11 * 2)) 0 0.
Proof.
  unfold get_acc_for_body.
  change (bodies two_body) with [sun; earth]. cbn [acc_loop].
  rewrite (acc_step_same_name earth _ earth) by reflexivity.
  rewrite acc_step_pull.
  unfold contributes. rewrite earth_sun_distance.
  change (String.eqb (name sun) (name earth)) with false. cbn [negb andb].
  replace (Rgtb (1 ^ 3) 1e-9) with true
    by (symmetry; unfold Rgtb; destruct (Rgt_dec (1 ^ 3) 1e-9); [reflexivity | lra]).
  rewrite Point_init_vzero. unfold pull. rewrite earth_sun_distance.
  unfold vadd, vzero, separation; simpl. f_equal; lra.
Qed.

(** Two bodies at the same place do not pull on each other. *)
Example coincident_bodies_skip :
  get_acc_for_body
    (build_system 0 2 1 [ObjBody sun; ObjBody probe]) probe
  = mkPoint 0 0 0.
Proof.
  unfold get_acc_for_body.
  change (bodies (build_system 0 2 1 [ObjBody sun; ObjBody probe]))
    with [sun; probe].
  cbn [acc_loop].
  rewrite (acc_step_same_name probe _ probe) by reflexivity.
  rewrite acc_step_pull.
  assert (Hd : norm (separation probe sun) = 0).
  { unfold norm, separation; simpl.
    replace ((0 - 0) * (0 - 0) + (0 - 0) * (0 - 0) + (0 - 0) * (0 - 0))
      with 0 by lra.
    apply sqrt_0. }
  unfold contributes. rewrite Hd.
  replace (Rgtb (0 ^ 3) 1e-9) with false
    by (symmetry; unfold Rgtb; destruct (Rgt_dec (0 ^ 3) 1e-9); [lra | reflexivity]).
  rewrite andb_false_r. apply Point_init_vzero.
Qed.

(** C4 fails on the code.  Two bodies of the same name and of non-positive
    mass are both accepted by [add_body], and the run on them makes a turn
    of the loop and returns two samples per body; a system with a negative
    step is built and run as well, and returns one sample per body. *)
Lemma invalid_configuration_runs :
  (name twin_a = name twin_b /\ mass twin_a <= 0 /\ mass twin_b <= 0) /\
  (returned (add_body (System_init 0 0 1) (ObjBody twin_a)) = 0%Z /\
   returned (add_body (self_after (add_body (System_init 0 0 1)
                                            (ObjBody twin_a)))
                      (ObjBody twin_b)) = 0%Z /\
   bodies twins = [twin_a; twin_b]) /\
  (exists bs s',
      start_sim 1 twins = Some (bs, s') /\
      Forall (fun b => length (position_list b) = 2%nat) bs) /\
  (dt backwards <= 0 /\ bodies backwards = [twin_a; twin_b]) /\
  (exists bs s',
      start_sim 0 backwards = Some (bs, s') /\
      map (@position_list R) bs = [[[0; 0; 0]]; [[1; 0; 0]]]).
Proof.
  split; [|split; [|split; [|split]]].
  - simpl. repeat split; lra.
  - repeat split.
  - exists (bodies (kdk_run 1 twins)), (kdk_run 1 twins). split.
    + apply twins_returns. apply Nat.le_refl.
    + apply (@samples_kdk_run R RealNum 1 twins 0).
      repeat constructor.
  - split; [simpl; lra | reflexivity].
  - exists (bodies (kdk_init backwards)), (kdk_init backwards). split.
    + apply backwards_returns.
    + reflexivity.
Qed.





Lemma self_exclusion_single_body_witness :
  get_acc_for_body lone_probe probe = mkPoint 0 0 0 /\
  forall n, exists b',
    bodies (sim_state n lone_probe) = [b'] /\
    position_list b'
    = map (line_sample (mkPoint 0 0 0) (mkPoint 1 2 3) 1) (seq 0 (S n)).
Proof.
  destruct (@self_exclusion_single_body lone_probe probe eq_refl eq_refl)
    as (_ & Hacc & Hline & _).
  split; [exact Hacc|].
  intros n. destruct (Hline n) as (b' & Hb & _ & Hl & _).
  exists b'. split; [exact Hb | exact Hl].
Defined.

Lemma start_sim_keeps_bodies_witness :
  start_sim 0 late_start
  = Some (bodies (kdk_init late_start), kdk_init late_start) /\
  Forall2 (fun b b' => name b' = name b /\ mass b' = mass b)
          [sun; earth] (bodies (kdk_init late_start)).
Proof.
  split; [apply late_start_returns|].
  apply (@start_sim_keeps_bodies R RealNum 0 late_start
           (bodies (kdk_init late_start)) (kdk_init late_start)
           (late_start_returns 0)).
Defined.

End Instances.

(** * Further properties of the code *)

(** ** Trajectories, for every arithmetic *)

Section Trajectories.

Context {num : Type} {arith : PyNum num}.

Local Open Scope py_scope.

Implicit Types (self s : System num) (b body : Body num).

Lemma Forall2_compose (A : Type) (P Q R : A -> A -> Prop) :
  (forall u v w, P u v -> Q v w -> R u w) ->
  forall l1 l2 l3, Forall2 P l1 l2 -> Forall2 Q l2 l3 -> Forall2 R l1 l3.
Proof.
  intros HPQ l1 l2 l3 H; revert l3.
  induction H as [|u v l1 l2 Huv _ IH]; intros l3 H3; inversion H3; subst.
  - constructor.
  - constructor; eauto.
Qed.

Lemma Forall2_map_all (A B : Type) (Q : A -> B -> Prop) (f : A -> B) :
  (forall u, Q u (f u)) -> forall l, Forall2 Q l (map f l).
Proof. intros H l; induction l; simpl; constructor; auto. Qed.

(** What one phase list does to a body of [kdk_init] and of [kdk_step]. *)
Lemma kdk_init_bodies s :
  bodies (kdk_init s)
  = map (fun b => add_current_pos_to_list
                    (kick (dt s / two) (accelerate s b))) (bodies s).
Proof. unfold kdk_init; simpl. now rewrite !map_map. Qed.

Lemma kdk_step_bodies s :
  bodies (kdk_step s)
  = map (fun b =>
           add_current_pos_to_list
             (kick (dt s)
                (accelerate (set_bodies s (map (drift (dt s)) (bodies s)))
                            (drift (dt s) b)))) (bodies s).
Proof. unfold kdk_step; simpl. now rewrite !map_map. Qed.

Lemma extends_init s : Forall2 (extends 1) (bodies s) (bodies (kdk_init s)).
Proof.
  rewrite kdk_init_bodies. apply Forall2_map_all.
  intros b. eexists; split; reflexivity.
Qed.

Lemma extends_step s : Forall2 (extends 1) (bodies s) (bodies (kdk_step s)).
Proof.
  rewrite kdk_step_bodies. apply Forall2_map_all.
  intros b. eexists; split; reflexivity.
Qed.

Lemma extends_add m k (l1 l2 l3 : list (Body num)) :
  Forall2 (extends m) l1 l2 -> Forall2 (extends k) l2 l3 ->
  Forall2 (extends (m + k)) l1 l3.
Proof.
  apply Forall2_compose.
  intros u v w (m1 & H1 & L1) (m2 & H2 & L2).
  exists (m1 ++ m2). rewrite H2, H1, <- app_assoc, length_app, L1, L2.
  split; reflexivity.
Qed.

Lemma extends_refl (l : list (Body num)) : Forall2 (extends 0) l l.
Proof.
  induction l; constructor; auto.
  exists []. now rewrite app_nil_r.
Qed.

Lemma kdk_run_succ n s : kdk_run (S n) s = kdk_step (kdk_run n s).
Proof. reflexivity. Qed.

Lemma kdk_run_add n m s :
  kdk_run (n + m) s = Nat.iter m kdk_step (kdk_run n s).
Proof.
  unfold kdk_run. rewrite Nat.add_comm. apply Nat.iter_add.
Qed.

(** X1. Trajectories are append-only: the samples a body holds after [n]
    turns are still there, unchanged and in place, after [n + m] turns,
    followed by exactly [m] new ones; and the state after [n] turns holds
    the samples the body came with and [n + 1] more. *)
Theorem trajectories_only_grow (s : System num) (n m : nat) :
  Forall2 (extends m) (bodies (sim_state n s)) (bodies (sim_state (n + m) s))
  /\ Forall2 (extends (n + 1)) (bodies s) (bodies (sim_state n s)).
Proof.
  rewrite !sim_state_kdk. split.
  - rewrite kdk_run_add. generalize (kdk_run n s) as s0.
    induction m as [|m IH]; intros s0.
    + apply extends_refl.
    + rewrite Nat.iter_succ.
      replace (S m) with (m + 1)%nat by lia.
      eapply extends_add; [apply IH | apply extends_step].
  - induction n as [|n IH].
    + apply extends_init.
    + rewrite kdk_run_succ.
      replace (S n + 1)%nat with ((n + 1) + 1)%nat by lia.
      eapply extends_add; [apply IH | apply extends_step].
Qed.

(** X2. At every loop head the newest sample of every body is the
    position the body has at that moment. *)
Theorem newest_sample_is_position (s : System num) (n : nat) :
  Forall (fun b => last (position_list b) [] = get_point_as_list (position b))
         (bodies (sim_state n s)).
Proof.
  rewrite sim_state_kdk. destruct n as [|n].
  - unfold kdk_run; simpl Nat.iter. rewrite kdk_init_bodies.
    rewrite Forall_map. apply Forall_forall. intros b _.
    unfold add_current_pos_to_list; simpl. apply last_last.
  - rewrite kdk_run_succ, kdk_step_bodies.
    rewrite Forall_map. apply Forall_forall. intros b _.
    unfold add_current_pos_to_list; simpl. apply last_last.
Qed.

Lemma well_shaped_record b :
  well_shaped b -> well_shaped (add_current_pos_to_list b).
Proof.
  intros H. unfold well_shaped, add_current_pos_to_list; simpl.
  apply Forall_app; split; [exact H | repeat constructor].
Qed.

Lemma well_shaped_init s :
  Forall well_shaped (bodies s) -> Forall well_shaped (bodies (kdk_init s)).
Proof.
  intros H. rewrite kdk_init_bodies, Forall_map.
  eapply Forall_impl; [|exact H]. intros b Hb.
  apply well_shaped_record. exact Hb.
Qed.

Lemma well_shaped_step s :
  Forall well_shaped (bodies s) -> Forall well_shaped (bodies (kdk_step s)).
Proof.
  intros H. rewrite kdk_step_bodies, Forall_map.
  eapply Forall_impl; [|exact H]. intros b Hb.
  apply well_shaped_record. exact Hb.
Qed.

Lemma well_shaped_run n s :
  Forall well_shaped (bodies s) -> Forall well_shaped (bodies (kdk_run n s)).
Proof.
  intros H. induction n as [|n IH].
  - now apply well_shaped_init.
  - rewrite kdk_run_succ. now apply well_shaped_step.
Qed.

End Trajectories.

(** ** Runs, construction and drawing, for every arithmetic *)

Section Composition.

Context {num : Type} {arith : PyNum num}.

Local Open Scope py_scope.

Implicit Types (self s : System num) (b body : Body num).

(** X3. A run that has returned leaves the clock past [stop]: a second
    [start_sim] on the same system returns at once, whatever the fuel, after
    one more half-kick and one more recorded sample per body, the position
    the body already had; the clock is not touched. *)
Theorem second_run_returns_at_once fuel (s : System num) bs s' :
  start_sim fuel s = Some (bs, s') ->
  forall fuel', exists bs2 s2,
    start_sim fuel' s' = Some (bs2, s2) /\
    t s2 = t s' /\
    Forall2 (fun b b2 =>
               position_list b2
               = position_list b ++ [get_point_as_list (position b)] /\
               position b2 = position b)
            bs bs2.
Proof.
  intros H fuel'.
  destruct (start_sim_turns _ _ H) as (n & _ & _ & -> & _ & Hend).
  exists (bodies (kdk_init s')), (kdk_init s'). split.
  - now apply start_sim_no_turn.
  - split; [reflexivity|].
    rewrite kdk_init_bodies. apply Forall2_map_all.
    intros b; split; reflexivity.
Qed.

Lemma add_entries_fold :
  forall (entries : list (PyObject num)) s,
    fold_left (fun s o => self_after (add_body s o)) entries s
    = set_bodies s (bodies s ++ bodies_among entries).
Proof.
  induction entries as [|o entries IH]; intros s; simpl.
  - rewrite app_nil_r. now destruct s.
  - rewrite IH. destruct o; simpl; try reflexivity.
    unfold set_bodies; simpl. now rewrite <- app_assoc.
Qed.

Lemma bodies_among_bodies (l : list (Body num)) :
  bodies_among (map (@ObjBody num) l) = l.
Proof. induction l as [|b l IH]; simpl; [reflexivity | now rewrite IH]. Qed.

(** X4. A sequence of [add_body] calls on a new system keeps exactly the
    entries that are bodies, in the order of the calls: an entry that is
    not a body changes nothing for the bodies added before or after it.
    The calls that return 0 are as many as the bodies kept. *)
Theorem build_system_keeps_the_bodies (start0 stop0 dt0 : num)
    (entries : list (PyObject num)) :
  bodies (build_system start0 stop0 dt0 entries) = bodies_among entries /\
  build_system start0 stop0 dt0 entries
  = build_system start0 stop0 dt0 (map (@ObjBody num) (bodies_among entries)) /\
  (forall s0,
     length (filter (fun o => Z.eqb (returned (add_body s0 o)) 0) entries)
     = length (bodies_among entries)).
Proof.
  unfold build_system. rewrite !add_entries_fold, bodies_among_bodies.
  split; [reflexivity|]. split; [reflexivity|].
  intros s0.
  induction entries as [|o entries IH]; simpl; [reflexivity|].
  destruct o; simpl; rewrite IH; reflexivity.
Qed.

Lemma acc_step_target body body' acc o :
  name body = name body' -> position body = position body' ->
  acc_step body acc o = acc_step body' acc o.
Proof. unfold acc_step; intros -> ->. reflexivity. Qed.

Lemma acc_loop_target body body' :
  name body = name body' -> position body = position body' ->
  forall l acc, acc_loop body acc l = acc_loop body' acc l.
Proof.
  intros Hn Hp. induction l as [|o l IH]; intros acc; simpl; [reflexivity|].
  rewrite (acc_step_target body body' acc o Hn Hp). apply IH.
Qed.

(** X5. The acceleration [get_acc_for_body] computes depends on the name
    and position of the target and on the names, masses and positions of
    the bodies of the system, in their order, and on nothing else: not on
    the mass of the target, not on any velocity, acceleration or recorded
    sample, not on the clock. *)
Theorem acceleration_reads_names_masses_positions
    (s s' : System num) (b b' : Body num) :
  map source_of (bodies s) = map source_of (bodies s') ->
  name b = name b' ->
  position b = position b' ->
  get_acc_for_body s b = get_acc_for_body s' b'.
Proof.
  intros Hs Hn Hp. unfold get_acc_for_body.
  rewrite (acc_loop_target b b' Hn Hp).
  now apply acc_loop_source.
Qed.

Lemma index_map (A B : Type) (g : option A -> B) :
  forall l : list A,
    map (fun i => g (nth_error l i)) (seq 0 (length l))
    = map (fun u => g (Some u)) l.
Proof.
  induction l as [|u l IH]; simpl; [reflexivity|].
  f_equal. rewrite <- seq_shift, map_map. exact IH.
Qed.

Lemma column_map k (coords : list (list num)) :
  column k coords = all_some (map (fun sample => nth_error sample k) coords).
Proof.
  unfold column. f_equal.
  exact (index_map (fun o => match o with
                             | Some sample => nth_error sample k
                             | None => None
                             end) coords).
Qed.

Lemma columns_of_samples (coords : list (list num)) :
  Forall (fun sample => length sample = 3%nat) coords ->
  exists xs ys zs,
    column 0 coords = Some xs /\ column 1 coords = Some ys /\
    column 2 coords = Some zs /\ samples_of xs ys zs = coords.
Proof.
  rewrite !column_map.
  induction 1 as [|sample coords Hlen _ (xs & ys & zs & Hx & Hy & Hz & Hs)].
  - exists [], [], []. repeat split.
  - destruct sample as [|a [|b' [|c [|]]]]; try discriminate.
    exists (a :: xs), (b' :: ys), (c :: zs).
    simpl in Hx, Hy, Hz |- *.
    rewrite Hx, Hy, Hz, Hs. repeat split.
Qed.

Lemma column_none k (coords : list (list num)) :
  column k coords = None
  <-> Exists (fun sample => (length sample <= k)%nat) coords.
Proof.
  rewrite column_map. induction coords as [|sample coords IH]; simpl.
  - split; [discriminate | intros H; inversion H].
  - destruct (nth_error sample k) as [v|] eqn:E.
    + assert (Hk : ~ (length sample <= k)%nat).
      { intros Hle. apply nth_error_None in Hle. congruence. }
      destruct (all_some (map (fun sample0 => nth_error sample0 k) coords)).
      * split; [discriminate|]. intros H; inversion H; subst.
        -- contradiction.
        -- apply IH in H1. discriminate.
      * split; [|reflexivity]. intros _. apply Exists_cons_tl.
        now apply IH.
    + split; [|reflexivity]. intros _. apply Exists_cons_hd.
      now apply nth_error_None.
Qed.

Lemma draw_body_columns b xs ys zs :
  column 0 (position_list b) = Some xs ->
  column 1 (position_list b) = Some ys ->
  column 2 (position_list b) = Some zs ->
  exists a, draw_body b = Some a /\ artist_label a = name b /\
            artist_data a = (xs, ys, zs).
Proof.
  intros Hx Hy Hz. unfold draw_body. rewrite Hx, Hy, Hz.
  destruct (String.eqb (lower (name b)) "sun");
    [eexists; repeat split|].
  destruct (String.eqb (lower (name b)) "earth");
    [eexists; repeat split|].
  destruct (String.eqb (lower (name b)) "jupiter");
    eexists; repeat split.
Qed.

Lemma draw_bodies_well_shaped (bs : list (Body num)) :
  Forall well_shaped bs ->
  exists artists, draw_bodies bs = Some artists /\ Forall2 draws bs artists.
Proof.
  unfold draw_bodies.
  induction 1 as [|b bs Hb _ (artists & Hd & Hall)]; simpl.
  - exists []. split; [reflexivity | constructor].
  - destruct (columns_of_samples Hb) as (xs & ys & zs & Hx & Hy & Hz & Hs).
    destruct (draw_body_columns b Hx Hy Hz) as (a & Ha & Hl & Hdata).
    rewrite Ha, Hd. exists (a :: artists). split; [reflexivity|].
    constructor; [|exact Hall].
    split; [exact Hl|]. now rewrite Hdata.
Qed.

(** X6. Drawing what [start_sim] returns never runs into an [IndexError]:
    when the samples the bodies came with (none, for new bodies) have three
    coordinates each, the drawing loop of [main] yields one artist per
    returned body, in order, labelled with the name of the body, and the
    three arrays of the artist are, index by index, the recorded samples of
    the body. *)
Theorem drawing_the_result fuel (s : System num) bs s' :
  Forall well_shaped (bodies s) ->
  start_sim fuel s = Some (bs, s') ->
  exists artists,
    draw_bodies bs = Some artists /\ Forall2 draws bs artists.
Proof.
  intros Hs H.
  destruct (start_sim_turns _ _ H) as (n & _ & -> & -> & _).
  apply draw_bodies_well_shaped.
  rewrite sim_state_kdk. now apply well_shaped_run.
Qed.

(** X7. The drawing of one body fails exactly when one of its samples has
    fewer than three coordinates. *)
Theorem draw_body_index_error (b : Body num) :
  draw_body b = None
  <-> Exists (fun sample => (length sample < 3)%nat) (position_list b).
Proof.
  split.
  - intros H. unfold draw_body in H.
    destruct (column 0 (position_list b)) as [xs|] eqn:Hx.
    + destruct (column 1 (position_list b)) as [ys|] eqn:Hy.
      * destruct (column 2 (position_list b)) as [zs|] eqn:Hz.
        -- destruct (String.eqb (lower (name b)) "sun"); [discriminate|].
           destruct (String.eqb (lower (name b)) "earth"); [discriminate|].
           destruct (String.eqb (lower (name b)) "jupiter"); discriminate.
        -- apply column_none in Hz. eapply Exists_impl; [|exact Hz].
           simpl; intros; lia.
      * apply column_none in Hy. eapply Exists_impl; [|exact Hy].
        simpl; intros; lia.
    + apply column_none in Hx. eapply Exists_impl; [|exact Hx].
      simpl; intros; lia.
  - intros H.
    assert (Hz : column 2 (position_list b) = None).
    { apply column_none. eapply Exists_impl; [|exact H]. simpl; intros; lia. }
    unfold draw_body. rewrite Hz.
    destruct (column 0 (position_list b)); [|reflexivity].
    destruct (column 1 (position_list b)); reflexivity.
Qed.

End Composition.

(** ** Forces and conserved quantities, over the real numbers *)

Section Forces.

Local Open Scope R_scope.

Implicit Types (s : System R) (b o : Body R) (p q : Point R).

Lemma point_ext p q : x p = x q -> y p = y q -> z p = z q -> p = q.
Proof. destruct p, q; simpl; intros -> -> ->; reflexivity. Qed.

Lemma vadd_zero_l p : vadd vzero p = p.
Proof. apply point_ext; simpl; lra. Qed.

Lemma vadd_comm p q : vadd p q = vadd q p.
Proof. apply point_ext; simpl; lra. Qed.

Lemma scale_zero (k : R) : scale k vzero = vzero.
Proof. apply point_ext; simpl; lra. Qed.

Lemma scale_vadd (k : R) p q : scale k (vadd p q) = vadd (scale k p) (scale k q).
Proof. apply point_ext; simpl; lra. Qed.

Lemma vsum_app (l l' : list (Point R)) :
  vsum (l ++ l') = vadd (vsum l) (vsum l').
Proof.
  induction l as [|p l IH]; simpl.
  - now rewrite vadd_zero_l.
  - now rewrite IH, vadd_assoc.
Qed.

Lemma vsum_vadd (A : Type) (g h : A -> Point R) (l : list A) :
  vsum (map (fun u => vadd (g u) (h u)) l)
  = vadd (vsum (map g l)) (vsum (map h l)).
Proof.
  induction l as [|u l IH]; simpl.
  - now rewrite vadd_zero.
  - rewrite IH. apply point_ext; simpl; lra.
Qed.

Lemma vsum_scale (A : Type) (k : R) (g : A -> Point R) (l : list A) :
  vsum (map (fun u => scale k (g u)) l) = scale k (vsum (map g l)).
Proof.
  induction l as [|u l IH]; simpl.
  - now rewrite scale_zero.
  - now rewrite IH, scale_vadd.
Qed.

Lemma vsum_zero (A : Type) (l : list A) :
  vsum (map (fun _ => vzero) l) = vzero.
Proof.
  induction l as [|u l IH]; simpl; [reflexivity|].
  now rewrite IH, vadd_zero.
Qed.

Lemma vsum_perm (l l' : list (Point R)) :
  Permutation l l' -> vsum l = vsum l'.
Proof.
  induction 1 as [| p l l' _ IH | p q l | l1 l2 l3 _ IH1 _ IH2]; simpl.
  - reflexivity.
  - now rewrite IH.
  - apply point_ext; simpl; lra.
  - now rewrite IH1.
Qed.

(** A sum over all ordered pairs of a list vanishes when the terms of
    [(u, v)] and [(v, u)] cancel. *)
Lemma vsum_pairs_cancel (A : Type) (V : A -> A -> Point R) :
  (forall u v, vadd (V u v) (V v u) = vzero) ->
  forall l, vsum (map (fun u => vsum (map (V u) l)) l) = vzero.
Proof.
  intros Hanti.
  assert (Hdiag : forall u, V u u = vzero).
  { intros u. generalize (Hanti u u). intros H.
    apply point_ext; simpl;
      [apply (f_equal (@x R)) in H | apply (f_equal (@y R)) in H
       | apply (f_equal (@z R)) in H]; simpl in H; lra. }
  induction l as [|u l IH]; simpl; [reflexivity|].
  rewrite (vsum_vadd (fun v => V v u) (fun v => vsum (map (V v) l)) l).
  rewrite IH, Hdiag, vadd_zero, vadd_zero_l.
  rewrite <- (vsum_vadd (V u) (fun v => V v u) l).
  erewrite map_ext; [apply vsum_zero|].
  intros v; apply Hanti.
Qed.

Lemma acc_loop_forces b :
  forall l acc, acc_loop b acc l = vadd acc (vsum (map (force_on b) l)).
Proof.
  induction l as [|o l IH]; intros acc; simpl.
  - now rewrite vadd_zero.
  - rewrite IH, acc_step_pull. unfold force_on.
    destruct (contributes b o).
    + now rewrite vadd_assoc.
    + now rewrite vadd_zero_l.
Qed.

Lemma get_acc_for_body_forces s b :
  get_acc_for_body s b = vsum (map (force_on b) (bodies s)).
Proof.
  unfold get_acc_for_body.
  now rewrite acc_loop_forces, Point_init_vzero, vadd_zero_l.
Qed.

Lemma norm_separation_sym b o :
  norm (separation b o) = norm (separation o b).
Proof. unfold norm, separation; simpl. f_equal. ring. Qed.

Lemma contributes_sym b o : contributes b o = contributes o b.
Proof.
  unfold contributes.
  now rewrite String.eqb_sym, norm_separation_sym.
Qed.

Lemma linear_vsum T b (l : list (Point R)) :
  linear T -> T b (vsum l) = vsum (map (T b) l).
Proof.
  intros [H0 Hadd]. induction l as [|p l IH]; simpl.
  - apply H0.
  - now rewrite Hadd, IH.
Qed.

(** If what [o] does to [b] and what [b] does to [o] cancel under [T], the
    accelerations of a system sum to nothing under [T]. *)
Lemma balance T s :
  linear T ->
  (forall b o, vadd (T b (force_on b o)) (T o (force_on o b)) = vzero) ->
  vsum (map (fun b => T b (get_acc_for_body s b)) (bodies s)) = vzero.
Proof.
  intros HT Hanti.
  erewrite map_ext.
  - apply (vsum_pairs_cancel (fun b o => T b (force_on b o)) Hanti).
  - intros b. rewrite get_acc_for_body_forces, (linear_vsum b _ HT).
    now rewrite map_map.
Qed.

Lemma linear_mass : linear (fun b p => scale (mass b) p).
Proof.
  split; intros; [apply scale_zero | apply scale_vadd].
Qed.

Lemma linear_torque :
  linear (fun b p => scale (mass b) (cross (position b) p)).
Proof.
  split; intros; apply point_ext; simpl; ring.
Qed.

(** Action and reaction. *)
Lemma forces_cancel b o :
  vadd (scale (mass b) (force_on b o)) (scale (mass o) (force_on o b)) = vzero.
Proof.
  unfold force_on. rewrite (contributes_sym o b).
  destruct (contributes b o).
  - unfold pull. rewrite (norm_separation_sym o b).
    apply point_ext; simpl; unfold Rdiv; ring.
  - rewrite !scale_zero. apply vadd_zero.
Qed.

(** The pull between two bodies lies along the line that joins them. *)
Lemma torques_cancel b o :
  vadd (scale (mass b) (cross (position b) (force_on b o)))
       (scale (mass o) (cross (position o) (force_on o b))) = vzero.
Proof.
  unfold force_on. rewrite (contributes_sym o b).
  destruct (contributes b o).
  - unfold pull. rewrite (norm_separation_sym o b).
    apply point_ext; simpl; unfold Rdiv; ring.
  - apply point_ext; simpl; ring.
Qed.

Lemma net_force_zero s :
  vsum (map (fun b => scale (mass b) (get_acc_for_body s b)) (bodies s))
  = vzero.
Proof. apply (balance s linear_mass forces_cancel). Qed.

Lemma net_torque_zero s :
  vsum (map (fun b => scale (mass b)
                        (cross (position b) (get_acc_for_body s b)))
            (bodies s))
  = vzero.
Proof. apply (balance s linear_torque torques_cancel). Qed.

End Forces.

Section Conservation.

Local Open Scope R_scope.

Implicit Types (s : System R) (b o : Body R) (p q : Point R).

(** A sum of one vector per body, the vector read off mass, position and
    velocity only. *)
Lemma moment_preserved (w : Body R -> Point R) (f : Body R -> Body R)
    (l : list (Body R)) :
  (forall b, w (f b) = w b) ->
  vsum (map w (map f l)) = vsum (map w l).
Proof.
  intros H. rewrite map_map. f_equal. apply map_ext. exact H.
Qed.

Lemma momentum_kick (h : R) (l : list (Body R)) :
  momentum (map (kick h) l)
  = vadd (momentum l)
         (scale h (vsum (map (fun b => scale (mass b) (acceleration b)) l))).
Proof.
  unfold momentum. rewrite map_map, <- vsum_scale, <- vsum_vadd.
  f_equal. apply map_ext. intros b. apply point_ext; simpl; ring.
Qed.

Lemma momentum_kick_accelerate (h : R) s (l : list (Body R)) :
  bodies s = l ->
  momentum (map (kick h) (map (accelerate s) l)) = momentum l.
Proof.
  intros <-. rewrite momentum_kick, map_map.
  change (vsum (map (fun b => scale (mass (accelerate s b))
                                 (acceleration (accelerate s b))) (bodies s)))
    with (vsum (map (fun b => scale (mass b) (get_acc_for_body s b))
                    (bodies s))).
  rewrite net_force_zero, scale_zero, vadd_zero.
  unfold momentum. now apply moment_preserved.
Qed.

Lemma momentum_record (l : list (Body R)) :
  momentum (map (@add_current_pos_to_list R) l) = momentum l.
Proof. unfold momentum. now apply moment_preserved. Qed.

Lemma momentum_drift (h : R) (l : list (Body R)) :
  momentum (map (drift h) l) = momentum l.
Proof. unfold momentum. now apply moment_preserved. Qed.

Lemma momentum_init s : momentum (bodies (kdk_init s)) = momentum (bodies s).
Proof.
  unfold kdk_init. cbn [bodies set_bodies].
  rewrite momentum_record. now apply momentum_kick_accelerate.
Qed.

Lemma momentum_step s : momentum (bodies (kdk_step s)) = momentum (bodies s).
Proof.
  unfold kdk_step. cbn [bodies set_bodies].
  rewrite momentum_record, momentum_kick_accelerate by reflexivity.
  apply momentum_drift.
Qed.

Lemma momentum_run n s : momentum (bodies (kdk_run n s)) = momentum (bodies s).
Proof.
  induction n as [|n IH].
  - apply momentum_init.
  - now rewrite kdk_run_succ, momentum_step.
Qed.

(** X8. The total momentum, the sum of [mass * velocity], is the same at
    every loop head as it was before the run, and so it is for the bodies a
    run returns: every kick adds accelerations whose mass-weighted sum is
    zero, because the pulls of two bodies on each other cancel. *)
Theorem momentum_is_conserved (s : System R) :
  (forall n, momentum (bodies (sim_state n s)) = momentum (bodies s)) /\
  (forall fuel bs s',
     start_sim fuel s = Some (bs, s') -> momentum bs = momentum (bodies s)).
Proof.
  split.
  - intros n. rewrite sim_state_kdk. apply momentum_run.
  - intros fuel bs s' H.
    destruct (start_sim_turns _ _ H) as (n & _ & -> & -> & _).
    rewrite sim_state_kdk. apply momentum_run.
Qed.

Lemma mass_moment_drift (h : R) (l : list (Body R)) :
  mass_moment (map (drift h) l)
  = vadd (mass_moment l) (scale h (momentum l)).
Proof.
  unfold mass_moment, momentum.
  rewrite map_map, <- vsum_scale, <- vsum_vadd.
  f_equal. apply map_ext. intros b. apply point_ext; simpl; ring.
Qed.

Lemma mass_moment_init s :
  mass_moment (bodies (kdk_init s)) = mass_moment (bodies s).
Proof.
  unfold kdk_init. cbn [bodies set_bodies]. unfold mass_moment.
  rewrite !map_map. f_equal.
Qed.

Lemma mass_moment_step s :
  mass_moment (bodies (kdk_step s))
  = vadd (mass_moment (bodies s)) (scale (dt s) (momentum (bodies s))).
Proof.
  rewrite <- mass_moment_drift.
  unfold kdk_step. cbn [bodies set_bodies]. unfold mass_moment.
  rewrite !map_map. f_equal.
Qed.

Lemma mass_moment_run n s :
  mass_moment (bodies (kdk_run n s))
  = vadd (mass_moment (bodies s))
         (scale (INR n * dt s) (momentum (bodies s))).
Proof.
  induction n as [|n IH].
  - unfold kdk_run; simpl Nat.iter. rewrite mass_moment_init.
    apply point_ext; simpl; ring.
  - rewrite kdk_run_succ, mass_moment_step, IH, momentum_run.
    destruct (kdk_run_fields n s) as (_ & _ & ->).
    rewrite S_INR. apply point_ext; simpl; ring.
Qed.

(** X9. The sum of [mass * position] (the total mass times the centre of
    mass) moves on a straight line at constant speed: after [n] turns it
    is its initial value plus [n * dt] times the initial total momentum.
    With zero total momentum the centre of mass stays where it was. *)
Theorem centre_of_mass_moves_uniformly (s : System R) (n : nat) :
  mass_moment (bodies (sim_state n s))
  = vadd (mass_moment (bodies s))
         (scale (INR n * dt s) (momentum (bodies s)))
  /\ (momentum (bodies s) = vzero ->
      mass_moment (bodies (sim_state n s)) = mass_moment (bodies s)).
Proof.
  rewrite sim_state_kdk, mass_moment_run. split; [reflexivity|].
  intros ->. now rewrite scale_zero, vadd_zero.
Qed.

Lemma angular_kick (h : R) (l : list (Body R)) :
  angular_momentum (map (kick h) l)
  = vadd (angular_momentum l)
         (scale h (vsum (map (fun b => scale (mass b)
                                         (cross (position b) (acceleration b)))
                             l))).
Proof.
  unfold angular_momentum. rewrite map_map, <- vsum_scale, <- vsum_vadd.
  f_equal. apply map_ext. intros b. apply point_ext; simpl; ring.
Qed.

Lemma angular_kick_accelerate (h : R) s (l : list (Body R)) :
  bodies s = l ->
  angular_momentum (map (kick h) (map (accelerate s) l)) = angular_momentum l.
Proof.
  intros <-. rewrite angular_kick, map_map.
  change (vsum (map (fun b => scale (mass (accelerate s b))
                                 (cross (position (accelerate s b))
                                        (acceleration (accelerate s b))))
                    (bodies s)))
    with (vsum (map (fun b => scale (mass b)
                                (cross (position b) (get_acc_for_body s b)))
                    (bodies s))).
  rewrite net_torque_zero, scale_zero, vadd_zero.
  unfold angular_momentum. now apply moment_preserved.
Qed.

Lemma angular_record (l : list (Body R)) :
  angular_momentum (map (@add_current_pos_to_list R) l) = angular_momentum l.
Proof. unfold angular_momentum. now apply moment_preserved. Qed.

Lemma angular_drift (h : R) (l : list (Body R)) :
  angular_momentum (map (drift h) l) = angular_momentum l.
Proof.
  unfold angular_momentum. rewrite map_map. f_equal. apply map_ext.
  intros b. apply point_ext; simpl; ring.
Qed.

Lemma angular_init s :
  angular_momentum (bodies (kdk_init s)) = angular_momentum (bodies s).
Proof.
  unfold kdk_init. cbn [bodies set_bodies].
  rewrite angular_record. now apply angular_kick_accelerate.
Qed.

Lemma angular_step s :
  angular_momentum (bodies (kdk_step s)) = angular_momentum (bodies s).
Proof.
  unfold kdk_step. cbn [bodies set_bodies].
  rewrite angular_record, angular_kick_accelerate by reflexivity.
  apply angular_drift.
Qed.

Lemma angular_run n s :
  angular_momentum (bodies (kdk_run n s)) = angular_momentum (bodies s).
Proof.
  induction n as [|n IH].
  - apply angular_init.
  - now rewrite kdk_run_succ, angular_step.
Qed.

(** X10. The total angular momentum about the origin, the sum of
    [mass * (position x velocity)], is the same at every loop head as it
    was before the run, and so it is for the bodies a run returns: a drift
    moves each body along its own velocity, and the pull between two bodies
    lies along the line that joins them. *)
Theorem angular_momentum_is_conserved (s : System R) :
  (forall n,
     angular_momentum (bodies (sim_state n s)) = angular_momentum (bodies s))
  /\ (forall fuel bs s',
        start_sim fuel s = Some (bs, s') ->
        angular_momentum bs = angular_momentum (bodies s)).
Proof.
  split.
  - intros n. rewrite sim_state_kdk. apply angular_run.
  - intros fuel bs s' H.
    destruct (start_sim_turns _ _ H) as (n & _ & -> & -> & _).
    rewrite sim_state_kdk. apply angular_run.
Qed.

End Conservation.

Section Symmetries.

Local Open Scope R_scope.

Implicit Types (s : System R) (b o : Body R) (p q : Point R).

(** X11. The acceleration of a body does not depend on the order in which
    the bodies were added to the system. *)
Theorem acceleration_ignores_order (s s' : System R) (b : Body R) :
  Permutation (bodies s) (bodies s') ->
  get_acc_for_body s b = get_acc_for_body s' b.
Proof.
  intros H. rewrite !get_acc_for_body_forces.
  apply vsum_perm. now apply Permutation_map.
Qed.

Lemma separation_shift (c : Point R) b o :
  separation (shift c b) (shift c o) = separation b o.
Proof. apply point_ext; simpl; ring. Qed.

Lemma force_on_shift (c : Point R) b o :
  force_on (shift c b) (shift c o) = force_on b o.
Proof.
  unfold force_on, contributes, pull. rewrite separation_shift. reflexivity.
Qed.

(** X12. Moving every body of the system, and the target, by one and the
    same vector leaves the acceleration unchanged: the force law reads
    differences of positions only. *)
Theorem acceleration_ignores_translation (c : Point R) (s : System R)
    (b : Body R) :
  get_acc_for_body (set_bodies s (map (shift c) (bodies s))) (shift c b)
  = get_acc_for_body s b.
Proof.
  rewrite !get_acc_for_body_forces. cbn [bodies set_bodies].
  rewrite map_map. f_equal. apply map_ext. intros o. apply force_on_shift.
Qed.

Lemma get_acc_for_body_without s b (l1 l2 : list (Body R)) o :
  force_on b o = vzero ->
  get_acc_for_body (set_bodies s (l1 ++ o :: l2)) b
  = get_acc_for_body (set_bodies s (l1 ++ l2)) b.
Proof.
  intros H. rewrite !get_acc_for_body_forces. cbn [bodies set_bodies].
  rewrite !map_app, !vsum_app. simpl. now rewrite H, vadd_zero_l.
Qed.


Lemma norm_nonneg p : 0 <= norm p.
Proof. unfold norm. apply sqrt_pos. Qed.

(** X14. A body within a distance of [0.001] of the target, and so a body
    at the very place of the target, adds nothing to its acceleration,
    whatever its mass: taking it out of the system leaves the acceleration
    unchanged, and no division by a vanishing [r^3] takes place. *)
Theorem close_body_pulls_nothing (s : System R) (b o : Body R)
    (l1 l2 : list (Body R)) :
  norm (separation b o) <= 1e-3 ->
  get_acc_for_body (set_bodies s (l1 ++ o :: l2)) b
  = get_acc_for_body (set_bodies s (l1 ++ l2)) b.
Proof.
  intros Hr. apply get_acc_for_body_without.
  unfold force_on, contributes.
  assert (Hcube : norm (separation b o) ^ 3 <= 1e-9).
  { replace 1e-9 with (1e-3 ^ 3) by (simpl; lra).
    apply pow_incr. split; [apply norm_nonneg | exact Hr]. }
  unfold Rgtb. destruct (Rgt_dec (norm (separation b o) ^ 3) 1e-9) as [Hgt|_].
  - lra.
  - now rewrite andb_false_r.
Qed.

(** X15. A body of another name farther than [0.001] from the target does
    add its pull [-(G * mass * d) / r^3]. *)
Theorem far_body_pulls (b o : Body R) (acc : Point R) :
  name b <> name o ->
  1e-3 < norm (separation b o) ->
  acc_step b acc o = vadd acc (pull b o).
Proof.
  intros Hn Hr. rewrite acc_step_pull. unfold contributes.
  assert (Hname : String.eqb (name o) (name b) = false).
  { apply String.eqb_neq. congruence. }
  assert (Hcube : 1e-9 < norm (separation b o) ^ 3).
  { generalize dependent (norm (separation b o)). intros r Hr.
    assert (H2 : 1e-3 * 1e-3 < r * r) by nra.
    simpl. nra. }
  rewrite Hname. unfold Rgtb.
  destruct (Rgt_dec (norm (separation b o) ^ 3) 1e-9) as [_|Hn']; [reflexivity|].
  unfold Rgt in Hn'. contradiction.
Qed.

(** X16. With a step that is not positive and the clock at most [stop],
    [start_sim] never returns: whatever the fuel, the loop is still
    running when it is spent. *)
Theorem nonpositive_step_never_returns (s : System R) :
  dt s <= 0 -> t s <= stop s -> forall fuel, start_sim fuel s = None.
Proof. intros Hdt Hle fuel. now apply start_sim_diverges. Qed.

(** X17. With a positive step and the clock at most [stop], the run
    returns after [n >= 1] turns with the clock at [t + n * dt], in the
    interval from [stop] (excluded) to [stop + dt] (included); [start],
    [stop] and [dt] are as they were. *)
Theorem clock_on_return (s : System R) :
  0 < dt s -> t s <= stop s ->
  exists n bs s',
    (1 <= n)%nat /\
    (forall fuel, (n <= fuel)%nat -> start_sim fuel s = Some (bs, s')) /\
    t s' = t s + INR n * dt s /\
    stop s < t s' <= stop s + dt s /\
    start s' = start s /\ stop s' = stop s /\ dt s' = dt s.
Proof.
  intros Hdt Hle.
  assert (H0 : (0 < turns s)%nat).
  { apply (turns_spec s 0 Hdt). simpl. lra. }
  exists (turns s), (bodies (kdk_run (turns s) s)), (kdk_run (turns s) s).
  destruct (kdk_run_fields (turns s) s) as (Hstart & Hstop & Hstep).
  split; [lia|]. repeat split; try assumption.
  - intros fuel Hfuel. now apply start_sim_returns.
  - apply kdk_run_t.
  - rewrite <- (kdk_run_stop (turns s) s). apply guard_false.
    now apply guard_kdk_run_end.
  - rewrite kdk_run_t.
    assert (Hprev : (turns s - 1 < turns s)%nat) by lia.
    apply (turns_spec s (turns s - 1) Hdt) in Hprev.
    replace (turns s) with (S (turns s - 1)) at 1 by lia.
    rewrite S_INR. lra.
Qed.

End Symmetries.

Section MoreInstances.

Local Open Scope R_scope.

Lemma probe_sun_distance : norm (separation probe sun) = 0.
Proof.
  unfold norm, separation; simpl.
  replace ((0 - 0) * (0 - 0) + (0 - 0) * (0 - 0) + (0 - 0) * (0 - 0))
    with 0 by lra.
  apply sqrt_0.
Qed.

Lemma second_run_returns_at_once_witness :
  start_sim 0 late_start
  = Some (bodies (kdk_init late_start), kdk_init late_start) /\
  forall fuel', exists bs2 s2,
    start_sim fuel' (kdk_init late_start) = Some (bs2, s2) /\
    t s2 = t (kdk_init late_start) /\
    Forall2 (fun b b2 =>
               position_list b2
               = position_list b ++ [get_point_as_list (position b)] /\
               position b2 = position b)
            (bodies (kdk_init late_start)) bs2.
Proof.
  split; [apply late_start_returns|].
  exact (@second_run_returns_at_once R RealNum 0 late_start
           (bodies (kdk_init late_start)) (kdk_init late_start)
           (late_start_returns 0)).
Defined.

Lemma acceleration_reads_names_masses_positions_witness :
  get_acc_for_body two_body earth = get_acc_for_body late_start fast_earth.
Proof.
  apply (@acceleration_reads_names_masses_positions R RealNum
           two_body late_start earth fast_earth); reflexivity.
Defined.

Lemma drawing_the_result_witness :
  exists artists,
    draw_bodies (bodies (kdk_init late_start)) = Some artists /\
    Forall2 (@draws R) (bodies (kdk_init late_start)) artists.
Proof.
  apply (@drawing_the_result R RealNum 0 late_start
           (bodies (kdk_init late_start)) (kdk_init late_start)).
  - repeat constructor.
  - apply late_start_returns.
Defined.

Lemma acceleration_ignores_order_witness :
  get_acc_for_body two_body earth = get_acc_for_body two_body_swapped earth.
Proof.
  apply (acceleration_ignores_order two_body two_body_swapped earth).
  apply perm_swap.
Defined.


Lemma close_body_pulls_nothing_witness :
  norm (separation probe sun) <= 1e-3 /\
  get_acc_for_body (set_bodies two_body ([earth] ++ sun :: [probe])) probe
  = get_acc_for_body (set_bodies two_body ([earth] ++ [probe])) probe.
Proof.
  assert (H : norm (separation probe sun) <= 1e-3)
    by (rewrite probe_sun_distance; lra).
  split; [exact H|].
  exact (close_body_pulls_nothing two_body probe sun [earth] [probe] H).
Defined.

Lemma far_body_pulls_witness :
  acc_step earth vzero sun = vadd vzero (pull earth sun).
Proof.
  apply (far_body_pulls earth sun vzero).
  - discriminate.
  - rewrite earth_sun_distance. lra.
Defined.

Lemma nonpositive_step_never_returns_witness :
  dt stalled <= 0 /\ t stalled <= stop stalled /\
  forall fuel, start_sim fuel stalled = None.
Proof.
  assert (Hdt : dt stalled <= 0) by (simpl; lra).
  assert (Hle : t stalled <= stop stalled) by (simpl; lra).
  split; [exact Hdt|]. split; [exact Hle|].
  exact (nonpositive_step_never_returns stalled Hdt Hle).
Defined.

Lemma clock_on_return_witness :
  exists n bs s',
    (1 <= n)%nat /\
    (forall fuel, (n <= fuel)%nat -> start_sim fuel two_body = Some (bs, s')) /\
    t s' = 0 + INR n * 1 /\
    2 < t s' <= 2 + 1 /\
    start s' = 0 /\ stop s' = 2 /\ dt s' = 1.
Proof.
  apply (clock_on_return two_body); simpl; lra.
Defined.

End MoreInstances.
